(** * ISOForge: the blueprint generator and its React front end

    A shallow embedding of [src/types.ts], [src/services/geminiService.ts]
    and the event handlers of [src/App.tsx].

    - JavaScript strings are sequences of UTF-16 code units ([jsstring]).
    - TypeScript types are erased at run time: what [JSON.parse] returns
      is a [json] value, whatever type the code declares for it.
    - [JSON.parse] and [JSON.stringify] are the ECMAScript built-ins the
      code calls; they are modelled here as executable functions on code
      units (ECMA-262, sections JSON.parse, SerializeJSONProperty and
      QuoteJSONString).  Numbers are kept as the literal that was read:
      conversion to IEEE doubles is not modelled.
    - Asynchronous code is a tree of effects ([proc]): state writes, clock
      reads, the outbound call and the timers are the nodes, and the
      suspension points are the nodes at which other events can be
      handled.
    - The page is an event loop ([step]): events are handled one at a
      time, each against the state committed by the events before it, as
      React flushes the updates of a discrete event before the next event
      is dispatched. *)

From Stdlib Require Import List NArith ZArith String Ascii Bool Arith Lia.
Import ListNotations.

Set Implicit Arguments.
#[local] Set Warnings "-register-all".

(* ================================================================== *)
(** ** JavaScript strings *)
(* ================================================================== *)

(** A string is a list of UTF-16 code units. *)
Definition jsstring : Type := list N.

(** A literal of the source, written as a Rocq string of ASCII characters. *)
Definition str (s : string) : jsstring :=
  map N_of_ascii (list_ascii_of_string s).

(** A JSON document written with the apostrophe standing for the
    quotation mark (code unit 34), for readable test inputs. *)
Definition json_text (s : string) : jsstring :=
  map (fun c => if (c =? 39)%N then 34%N else c) (str s).

Fixpoint str_eqb (a b : jsstring) : bool :=
  match a, b with
  | [], [] => true
  | x :: a', y :: b' => (x =? y)%N && str_eqb a' b'
  | _, _ => false
  end.

(** [Array.prototype.join] on an array of strings. *)
Fixpoint join (sep : jsstring) (l : list jsstring) : jsstring :=
  match l with
  | [] => []
  | [x] => x
  | x :: rest => x ++ sep ++ join sep rest
  end.

(** [String.prototype.toLowerCase] on the ASCII range (it is only applied
    to the values of the [OS] enumeration, which are ASCII). *)
Definition toLowerCase (s : jsstring) : jsstring :=
  map (fun c => if ((65 <=? c) && (c <=? 90))%N then (c + 32)%N else c) s.

(* ================================================================== *)
(** ** JSON values, [JSON.parse] and [JSON.stringify] *)
(* ================================================================== *)

Inductive json : Type :=
| JNull
| JBool (b : bool)
| JNumber (literal : jsstring)
| JString (s : jsstring)
| JArray (elements : list json)
| JObject (fields : list (jsstring * json)).

Module JSON.

Local Open Scope N_scope.

Definition is_ws (c : N) : bool :=
  (c =? 32) || (c =? 9) || (c =? 10) || (c =? 13).

Fixpoint skip_ws (s : jsstring) : jsstring :=
  match s with
  | c :: r => if is_ws c then skip_ws r else s
  | [] => []
  end.

Definition is_digit (c : N) : bool := (48 <=? c) && (c <=? 57).

Definition hex_val (c : N) : option N :=
  if is_digit c then Some (c - 48)
  else if (97 <=? c) && (c <=? 102) then Some (c - 87)
  else if (65 <=? c) && (c <=? 70) then Some (c - 55)
  else None.

Definition hex4 (a b c d : N) : option N :=
  match hex_val a, hex_val b, hex_val c, hex_val d with
  | Some x, Some y, Some z, Some w => Some (((x * 16 + y) * 16 + z) * 16 + w)
  | _, _, _, _ => None
  end.

(** The single-character escapes of a JSON string: the code unit that
    follows the backslash, and what it denotes. *)
Definition unescape (e : N) : option N :=
  if e =? 34 then Some 34          (* quotation mark *)
  else if e =? 92 then Some 92     (* reverse solidus *)
  else if e =? 47 then Some 47     (* solidus *)
  else if e =? 98 then Some 8      (* b: backspace *)
  else if e =? 102 then Some 12    (* f: form feed *)
  else if e =? 110 then Some 10    (* n: line feed *)
  else if e =? 114 then Some 13    (* r: carriage return *)
  else if e =? 116 then Some 9     (* t: tab *)
  else None.

(** One more code unit in front of the string that was read. *)
Definition prepend (c : N) (r : option (jsstring * jsstring))
  : option (jsstring * jsstring) :=
  match r with
  | Some (cs, rest) => Some (c :: cs, rest)
  | None => None
  end.

(** The characters of a JSON string after its opening quotation mark, up
    to and including the closing one; returns the string denoted and the
    rest of the text. *)
Fixpoint parse_chars (s : jsstring) : option (jsstring * jsstring) :=
  match s with
  | [] => None
  | c :: r =>
    if c =? 34 then Some ([], r)
    else if c =? 92 then
      match r with
      | [] => None
      | e :: r1 =>
        if e =? 117 then
          match r1 with
          | h1 :: h2 :: h3 :: h4 :: r2 =>
            match hex4 h1 h2 h3 h4 with
            | Some u => prepend u (parse_chars r2)
            | None => None
            end
          | _ => None
          end
        else
          match unescape e with
          | Some u => prepend u (parse_chars r1)
          | None => None
          end
      end
    else if c <? 32 then None
    else prepend c (parse_chars r)
  end.

(** The longest prefix of decimal digits, and what follows it. *)
Fixpoint take_digits (s : jsstring) : jsstring * jsstring :=
  match s with
  | c :: r =>
    if is_digit c then let (ds, rest) := take_digits r in (c :: ds, rest)
    else ([], s)
  | [] => ([], [])
  end.

Definition parse_sign (s : jsstring) : jsstring * jsstring :=
  match s with
  | c :: r => if c =? 45 then ([c], r) else ([], s)
  | [] => ([], [])
  end.

Definition parse_int (s : jsstring) : option (jsstring * jsstring) :=
  match s with
  | c :: r =>
    if c =? 48 then Some ([c], r)
    else if is_digit c then let (ds, rest) := take_digits r in Some (c :: ds, rest)
    else None
  | [] => None
  end.

Definition parse_frac (s : jsstring) : option (jsstring * jsstring) :=
  match s with
  | c :: r =>
    if c =? 46 then
      match take_digits r with
      | ([], _) => None
      | (ds, rest) => Some (c :: ds, rest)
      end
    else Some ([], s)
  | [] => Some ([], [])
  end.

Definition parse_exp (s : jsstring) : option (jsstring * jsstring) :=
  match s with
  | c :: r =>
    if (c =? 101) || (c =? 69) then
      let (sg, r1) :=
        match r with
        | d :: r' => if (d =? 43) || (d =? 45) then ([d], r') else ([], r)
        | [] => ([], [])
        end in
      match take_digits r1 with
      | ([], _) => None
      | (ds, rest) => Some (c :: sg ++ ds, rest)
      end
    else Some ([], s)
  | [] => Some ([], [])
  end.

(** A JSON number: [-? int frac? exp?]; the literal is returned as read. *)
Definition parse_number (s : jsstring) : option (jsstring * jsstring) :=
  let (sg, s1) := parse_sign s in
  match parse_int s1 with
  | Some (i, s2) =>
    match parse_frac s2 with
    | Some (f, s3) =>
      match parse_exp s3 with
      | Some (e, s4) => Some (sg ++ i ++ f ++ e, s4)
      | None => None
      end
    | None => None
    end
  | None => None
  end.

Fixpoint strip_prefix (p s : jsstring) : option jsstring :=
  match p, s with
  | [], _ => Some s
  | x :: p', y :: s' => if x =? y then strip_prefix p' s' else None
  | _ :: _, [] => None
  end.

(** *** Property keys of an object

    An ordinary object lists its array-index keys first, in ascending
    numeric order, then its other string keys in creation order.  Writing
    an existing key overwrites the value in place. *)

Fixpoint digits_value (acc : N) (s : jsstring) : option N :=
  match s with
  | [] => Some acc
  | c :: r => if is_digit c then digits_value (acc * 10 + (c - 48)) r else None
  end.

(** A canonical numeric string denoting an integer below [2^32 - 1]. *)
Definition array_index (k : jsstring) : option N :=
  match k with
  | [] => None
  | c :: r =>
    if (c =? 48) && negb (Nat.eqb (List.length r) 0) then None
    else
      match digits_value 0 k with
      | Some n => if n <=? 4294967294 then Some n else None
      | None => None
      end
  end.

Fixpoint has_key (k : jsstring) (fs : list (jsstring * json)) : bool :=
  match fs with
  | [] => false
  | (k', _) :: r => str_eqb k k' || has_key k r
  end.

Fixpoint overwrite (k : jsstring) (v : json) (fs : list (jsstring * json))
  : list (jsstring * json) :=
  match fs with
  | [] => []
  | (k', v') :: r =>
    if str_eqb k k' then (k', v) :: r else (k', v') :: overwrite k v r
  end.

Fixpoint insert_index (i : N) (k : jsstring) (v : json)
  (fs : list (jsstring * json)) : list (jsstring * json) :=
  match fs with
  | [] => [(k, v)]
  | (k', v') :: r =>
    match array_index k' with
    | Some j => if j <? i then (k', v') :: insert_index i k v r
                else (k, v) :: fs
    | None => (k, v) :: fs
    end
  end.

(** [CreateDataProperty(obj, k, v)] on an ordinary object. *)
Definition obj_set (k : jsstring) (v : json) (fs : list (jsstring * json))
  : list (jsstring * json) :=
  if has_key k fs then overwrite k v fs
  else
    match array_index k with
    | Some i => insert_index i k v fs
    | None => fs ++ [(k, v)]
    end.

(** *** The grammar *)

Fixpoint parse_value (fuel : nat) (s : jsstring) {struct fuel}
  : option (json * jsstring) :=
  match fuel with
  | O => None
  | S fuel' =>
    match skip_ws s with
    | [] => None
    | c :: r =>
      if c =? 34 then
        match parse_chars r with
        | Some (cs, rest) => Some (JString cs, rest)
        | None => None
        end
      else if c =? 91 then
        match skip_ws r with
        | [] => None
        | d :: r' =>
          if d =? 93 then Some (JArray [], r')
          else
            match parse_elements fuel' r with
            | Some (vs, rest) => Some (JArray vs, rest)
            | None => None
            end
        end
      else if c =? 123 then
        match skip_ws r with
        | [] => None
        | d :: r' =>
          if d =? 125 then Some (JObject [], r')
          else
            match parse_members fuel' [] r with
            | Some (fs, rest) => Some (JObject fs, rest)
            | None => None
            end
        end
      else if c =? 116 then
        match strip_prefix (str "rue") r with
        | Some rest => Some (JBool true, rest)
        | None => None
        end
      else if c =? 102 then
        match strip_prefix (str "alse") r with
        | Some rest => Some (JBool false, rest)
        | None => None
        end
      else if c =? 110 then
        match strip_prefix (str "ull") r with
        | Some rest => Some (JNull, rest)
        | None => None
        end
      else
        match parse_number (c :: r) with
        | Some (n, rest) => Some (JNumber n, rest)
        | None => None
        end
    end
  end

with parse_elements (fuel : nat) (s : jsstring) {struct fuel}
  : option (list json * jsstring) :=
  match fuel with
  | O => None
  | S fuel' =>
    match parse_value fuel' s with
    | Some (v, r) =>
      match skip_ws r with
      | [] => None
      | c :: r' =>
        if c =? 44 then
          match parse_elements fuel' r' with
          | Some (vs, rest) => Some (v :: vs, rest)
          | None => None
          end
        else if c =? 93 then Some ([v], r')
        else None
      end
    | None => None
    end
  end

with parse_members (fuel : nat) (acc : list (jsstring * json)) (s : jsstring)
  {struct fuel} : option (list (jsstring * json) * jsstring) :=
  match fuel with
  | O => None
  | S fuel' =>
    match skip_ws s with
    | [] => None
    | c :: r =>
      if c =? 34 then
        match parse_chars r with
        | Some (k, r1) =>
          match skip_ws r1 with
          | [] => None
          | c1 :: r2 =>
            if c1 =? 58 then
              match parse_value fuel' r2 with
              | Some (v, r3) =>
                match skip_ws r3 with
                | [] => None
                | c3 :: r4 =>
                  if c3 =? 44 then parse_members fuel' (obj_set k v acc) r4
                  else if c3 =? 125 then Some (obj_set k v acc, r4)
                  else None
                end
              | None => None
              end
            else None
          end
        | None => None
        end
      else None
    end
  end.

(** *** [JSON.stringify] *)

Definition hex_digit (n : N) : N := if n <? 10 then 48 + n else 87 + n.

(** [UnicodeEscape]: reverse solidus, [u], four lower-case hexadecimal digits. *)
Definition unicode_escape (c : N) : jsstring :=
  [92; 117; hex_digit ((c / 4096) mod 16); hex_digit ((c / 256) mod 16);
   hex_digit ((c / 16) mod 16); hex_digit (c mod 16)].

Definition is_high (c : N) : bool := (55296 <=? c) && (c <=? 56319).
Definition is_low (c : N) : bool := (56320 <=? c) && (c <=? 57343).

(** One code point that is not a surrogate pair. *)
Definition escape_unit (c : N) : jsstring :=
  if c =? 8 then [92; 98]
  else if c =? 9 then [92; 116]
  else if c =? 10 then [92; 110]
  else if c =? 12 then [92; 102]
  else if c =? 13 then [92; 114]
  else if c =? 34 then [92; 34]
  else if c =? 92 then [92; 92]
  else if (c <? 32) || is_high c || is_low c then unicode_escape c
  else [c].

(** The body of [QuoteJSONString]: the string is read by code points, so
    a high surrogate followed by a low one is copied, and a lone
    surrogate is escaped. *)
Fixpoint quote_chars (s : jsstring) : jsstring :=
  match s with
  | [] => []
  | c :: r =>
    if is_high c then
      match r with
      | d :: r' =>
        if is_low d then c :: d :: quote_chars r'
        else unicode_escape c ++ quote_chars r
      | [] => unicode_escape c
      end
    else escape_unit c ++ quote_chars r
  end.

Definition quote (s : jsstring) : jsstring := 34 :: quote_chars s ++ [34].

(** [SerializeJSONProperty] with the current indentation; [gap] is the
    indentation unit. *)
Fixpoint serialize (gap indent : jsstring) (v : json) {struct v} : jsstring :=
  let inner := indent ++ gap in
  let wrap (opening closing : N) (items : list jsstring) : jsstring :=
    match items with
    | [] => [opening; closing]
    | _ :: _ =>
      match gap with
      | [] => opening :: join [44] items ++ [closing]
      | _ :: _ =>
        opening :: 10 :: inner ++ join (44 :: 10 :: inner) items
          ++ 10 :: indent ++ [closing]
      end
    end in
  match v with
  | JNull => str "null"
  | JBool true => str "true"
  | JBool false => str "false"
  | JNumber literal => literal
  | JString s => quote s
  | JArray elements => wrap 91 93 (map (serialize gap inner) elements)
  | JObject fields =>
    wrap 123 125
      (map (fun kv : jsstring * json =>
              quote (fst kv) ++ 58 :: match gap with [] => [] | _ :: _ => [32] end
                ++ serialize gap inner (snd kv))
           fields)
  end.

(** [JSON.stringify(value, null, space)] for a numeric [space]: the gap
    is [min(10, space)] spaces. *)
Definition stringify (value : json) (space : nat) : jsstring :=
  serialize (repeat 32 (Nat.min 10 space)) [] value.

(** Fuel that any text can use up: a value costs at most two units per
    code unit read (see [parse_value_enough_fuel]). *)
Definition fuel_for (text : jsstring) : nat := 2 * List.length text + 2.

(** [JSON.parse(text)]: [None] stands for the [SyntaxError] it throws. *)
Definition parse (text : jsstring) : option json :=
  match parse_value (fuel_for text) text with
  | Some (v, r) =>
    match skip_ws r with
    | [] => Some v
    | _ :: _ => None
    end
  | None => None
  end.

End JSON.

(* ================================================================== *)
(** ** Blobs *)
(* ================================================================== *)

(** The text of [new Blob([s])]: the string is converted to a sequence
    of Unicode scalar values, which replaces every unpaired surrogate by
    U+FFFD.  (The blob stores the UTF-8 encoding of that sequence;
    encoding and decoding are inverse on scalar values and are not
    modelled.) *)
Fixpoint toUSVString (s : jsstring) : jsstring :=
  match s with
  | [] => []
  | c :: r =>
    if JSON.is_high c then
      match r with
      | d :: r' =>
        if JSON.is_low d then c :: d :: toUSVString r'
        else 65533%N :: toUSVString r
      | [] => [65533%N]
      end
    else if JSON.is_low c then 65533%N :: toUSVString r
    else c :: toUSVString r
  end.

(* ================================================================== *)
(** ** [src/types.ts] *)
(* ================================================================== *)

Inductive OS : Type := UBUNTU | DEBIAN | ARCH | FEDORA | ALPINE.

(** The string value of each member of the enumeration. *)
Definition OS_value (o : OS) : jsstring :=
  match o with
  | UBUNTU => str "Ubuntu"
  | DEBIAN => str "Debian"
  | ARCH => str "Arch Linux"
  | FEDORA => str "Fedora"
  | ALPINE => str "Alpine Linux"
  end.

Inductive Arch : Type := X86_64 | ARM64.

Definition Arch_value (a : Arch) : jsstring :=
  match a with
  | X86_64 => str "x86_64"
  | ARM64 => str "aarch64"
  end.

Record ISOConfig : Type := {
  os : OS;
  version : jsstring;
  architecture : Arch;
  hostname : jsstring;
  username : jsstring;
  password : option jsstring;
  packages : list jsstring;
  customScripts : jsstring;
  isCloudInitEnabled : bool
}.

Record GeneratedFile : Type := {
  name : jsstring;
  content : jsstring;
  language : jsstring
}.

Inductive LogType : Type := info | success | warning | error.

Record BuildLog : Type := {
  timestamp : jsstring;
  message : jsstring;
  type : LogType
}.

(** Object spread with one field replaced: [{...c, packages: ps}] and the like. *)
Definition with_os (c : ISOConfig) (o : OS) : ISOConfig :=
  {| os := o; version := version c; architecture := architecture c;
     hostname := hostname c; username := username c; password := password c;
     packages := packages c; customScripts := customScripts c;
     isCloudInitEnabled := isCloudInitEnabled c |}.

Definition with_version (c : ISOConfig) (v : jsstring) : ISOConfig :=
  {| os := os c; version := v; architecture := architecture c;
     hostname := hostname c; username := username c; password := password c;
     packages := packages c; customScripts := customScripts c;
     isCloudInitEnabled := isCloudInitEnabled c |}.

Definition with_architecture (c : ISOConfig) (a : Arch) : ISOConfig :=
  {| os := os c; version := version c; architecture := a;
     hostname := hostname c; username := username c; password := password c;
     packages := packages c; customScripts := customScripts c;
     isCloudInitEnabled := isCloudInitEnabled c |}.

Definition with_hostname (c : ISOConfig) (h : jsstring) : ISOConfig :=
  {| os := os c; version := version c; architecture := architecture c;
     hostname := h; username := username c; password := password c;
     packages := packages c; customScripts := customScripts c;
     isCloudInitEnabled := isCloudInitEnabled c |}.

Definition with_username (c : ISOConfig) (u : jsstring) : ISOConfig :=
  {| os := os c; version := version c; architecture := architecture c;
     hostname := hostname c; username := u; password := password c;
     packages := packages c; customScripts := customScripts c;
     isCloudInitEnabled := isCloudInitEnabled c |}.

Definition with_packages (c : ISOConfig) (ps : list jsstring) : ISOConfig :=
  {| os := os c; version := version c; architecture := architecture c;
     hostname := hostname c; username := username c; password := password c;
     packages := ps; customScripts := customScripts c;
     isCloudInitEnabled := isCloudInitEnabled c |}.

Definition with_customScripts (c : ISOConfig) (s : jsstring) : ISOConfig :=
  {| os := os c; version := version c; architecture := architecture c;
     hostname := hostname c; username := username c; password := password c;
     packages := packages c; customScripts := s;
     isCloudInitEnabled := isCloudInitEnabled c |}.

Definition with_isCloudInitEnabled (c : ISOConfig) (b : bool) : ISOConfig :=
  {| os := os c; version := version c; architecture := architecture c;
     hostname := hostname c; username := username c; password := password c;
     packages := packages c; customScripts := customScripts c;
     isCloudInitEnabled := b |}.

(** *** Artifacts as run-time values

    TypeScript types are erased: at run time [GeneratedFile[]] is whatever
    value the program holds.  [files_json] is the value a well-typed list
    of artifacts is at run time, and [as_files] reads a value back. *)

Definition file_json (f : GeneratedFile) : json :=
  JObject [(str "name", JString (name f));
           (str "content", JString (content f));
           (str "language", JString (language f))].

Definition files_json (fs : list GeneratedFile) : json :=
  JArray (map file_json fs).

(** Property read [o[k]] on an object value. *)
Fixpoint get_field (k : jsstring) (fs : list (jsstring * json)) : option json :=
  match fs with
  | [] => None
  | (k', v) :: r => if str_eqb k k' then Some v else get_field k r
  end.

(** An object that carries the three fields of the declared schema,
    each of them a string. *)
Definition as_file (v : json) : option GeneratedFile :=
  match v with
  | JObject fs =>
    match get_field (str "name") fs, get_field (str "content") fs,
          get_field (str "language") fs with
    | Some (JString n), Some (JString c), Some (JString l) =>
      Some {| name := n; content := c; language := l |}
    | _, _, _ => None
    end
  | _ => None
  end.

Fixpoint all_files (vs : list json) : option (list GeneratedFile) :=
  match vs with
  | [] => Some []
  | v :: r =>
    match as_file v, all_files r with
    | Some f, Some fs => Some (f :: fs)
    | _, _ => None
    end
  end.

Definition as_files (v : json) : option (list GeneratedFile) :=
  match v with
  | JArray vs => all_files vs
  | _ => None
  end.

(** The [length] property as the render code reads it:
    [generatedFiles.length > 0]. Values without one give [undefined],
    and [undefined > 0] is false. *)
Definition length_positive (v : json) : bool :=
  match v with
  | JArray (_ :: _) => true
  | JString (_ :: _) => true
  | _ => false
  end.

(* ================================================================== *)
(** ** Effects and asynchronous procedures *)
(* ================================================================== *)

(** A thrown value, read through its [message] as the [catch] of
    [handleGenerate] does. *)
Inductive exn : Type := Error (msg : jsstring).

Definition exn_message (e : exn) : jsstring := let (m) := e in m.

(** The structured-output schema sent along with the prompt. *)
Inductive Schema : Type :=
| SString
| SArray (items : Schema)
| SObject (properties : list (jsstring * Schema)) (required : list jsstring).

Record Request : Type := {
  model : jsstring;
  contents : jsstring;
  responseMimeType : jsstring;
  responseSchema : Schema
}.

(** What the completion service answers; [text] may be [undefined]. *)
Record Response : Type := { text : option jsstring }.

(** The client object of the completion service. *)
Record GoogleGenAI : Type := { apiKey : jsstring }.

(** The component state of [App]: one cell per [useState]. *)
Record AppState : Type := {
  config : ISOConfig;
  newPackage : jsstring;
  isGenerating : bool;
  logs : list BuildLog;
  generatedFiles : json;
  activeStep : nat
}.

(** What a handler can do to the outside of itself.  The state setters
    take an updater, as React's do ([setX(v)] is the constant updater). *)
Inductive eff : Type -> Type :=
| SetConfig (u : ISOConfig -> ISOConfig) : eff unit
| SetNewPackage (v : jsstring) : eff unit
| SetIsGenerating (v : bool) : eff unit
| SetLogs (u : list BuildLog -> list BuildLog) : eff unit
| SetGeneratedFiles (v : json) : eff unit
| SetActiveStep (v : nat) : eff unit
| Now : eff jsstring
    (* new Date().toLocaleTimeString() *)
| ConsoleError (msg : jsstring) (e : exn) : eff unit
| ProcessEnvApiKey : eff (option jsstring)
    (* process.env.API_KEY *)
| GenerateContent (ai : GoogleGenAI) (req : Request) : eff (exn + Response)
    (* the promise of ai.models.generateContent(req), settled *)
| SetTimeout (ms : nat) : eff unit
    (* new Promise(r => setTimeout(r, ms)), settled *)
| Download (filename document : jsstring) : eff unit.
    (* the anchor click on the URL of a blob that holds [document] *)

(** A procedure: it returns, throws, or performs an effect and goes on
    with the answer. *)
Inductive proc (A : Type) : Type :=
| Ret (a : A)
| Throw (e : exn)
| Vis (X : Type) (e : eff X) (k : X -> proc A).

Arguments Ret {A} a.
Arguments Throw {A} e.
Arguments Vis {A X} e k.

Fixpoint bind {A B : Type} (p : proc A) (f : A -> proc B) : proc B :=
  match p with
  | Ret a => f a
  | Throw e => Throw e
  | Vis e k => Vis e (fun x => bind (k x) f)
  end.

Definition trigger {X : Type} (e : eff X) : proc X := Vis e (fun x => Ret x).

Declare Scope proc_scope.
Delimit Scope proc_scope with proc.
Notation "x <- c1 ;; c2" := (bind c1 (fun x => c2))
  (at level 61, c1 at next level, right associativity) : proc_scope.
Notation "c1 ;; c2" := (bind c1 (fun _ => c2))
  (at level 61, right associativity) : proc_scope.
Local Open Scope proc_scope.

(** [try { body } catch (e) { handler e }] *)
Fixpoint try_catch {A : Type} (body : proc A) (handler : exn -> proc A) : proc A :=
  match body with
  | Ret a => Ret a
  | Throw e => handler e
  | Vis e k => Vis e (fun x => try_catch (k x) handler)
  end.

(** [try { body } finally { fin }] *)
Fixpoint try_finally {A : Type} (body : proc A) (fin : proc unit) : proc A :=
  match body with
  | Ret a => fin ;; Ret a
  | Throw e => fin ;; Throw e
  | Vis e k => Vis e (fun x => try_finally (k x) fin)
  end.

(** [await promise]: the settled value, or the rejection rethrown. *)
Definition await {X : Type} (e : eff (exn + X)) : proc X :=
  r <- trigger e ;;
  match r with
  | inl err => Throw err
  | inr x => Ret x
  end.

(* ================================================================== *)
(** ** [src/services/geminiService.ts] *)
(* ================================================================== *)

Definition nl : jsstring := [10%N].

Definition prompt (config : ISOConfig) : jsstring :=
  str "Generate a complete set of configuration files for a bootable "
    ++ OS_value (os config) ++ str " ISO." ++ nl
  ++ str "  Target Architecture: " ++ Arch_value (architecture config) ++ nl
  ++ str "  Hostname: " ++ hostname config ++ nl
  ++ str "  User: " ++ username config ++ nl
  ++ str "  Included Packages: " ++ join (str ", ") (packages config) ++ nl
  ++ str "  Cloud-Init: "
    ++ (if isCloudInitEnabled config then str "Enabled" else str "Disabled") ++ nl
  ++ str "  Custom Instructions: " ++ customScripts config ++ nl
  ++ nl
  ++ str "  Provide a professional set of files including:" ++ nl
  ++ str "  1. A README.md with detailed instructions on how to use xorriso/mkisofs to build this." ++ nl
  ++ str "  2. The main installation configuration (e.g., user-data for Ubuntu/Cloud-init, preseed.cfg for Debian, or answers.yaml for Alpine)." ++ nl
  ++ str "  3. A shell script (build.sh) that automates the image creation process." ++ nl
  ++ str "  4. A secondary config file (e.g., grub.cfg or isolinux.cfg)." ++ nl
  ++ nl
  ++ str "  Ensure the output is a valid JSON array of objects with 'name', 'content', and 'language' fields.".

Definition blueprint_request (config : ISOConfig) : Request :=
  {| model := str "gemini-3-flash-preview";
     contents := prompt config;
     responseMimeType := str "application/json";
     responseSchema :=
       SArray (SObject [(str "name", SString); (str "content", SString);
                        (str "language", SString)]
                       [str "name"; str "content"; str "language"]) |}.

(** [response.text || '[]']: the default replaces [undefined] and the
    empty string, the two falsy values a string-or-undefined can take. *)
Definition text_or_default (t : option jsstring) : jsstring :=
  match t with
  | None => str "[]"
  | Some [] => str "[]"
  | Some (c :: r) => c :: r
  end.

(** [JSON.parse] as a procedure: a [SyntaxError] is thrown on failure. *)
Definition JSON_parse (t : jsstring) : proc json :=
  match JSON.parse t with
  | Some v => Ret v
  | None => Throw (Error (str "SyntaxError"))
  end.

(** [new GoogleGenAI({ apiKey: process.env.API_KEY || '' })] *)
Definition getAI : proc GoogleGenAI :=
  key <- trigger ProcessEnvApiKey ;;
  Ret {| apiKey := match key with
                   | Some (c :: r) => c :: r
                   | _ => []
                   end |}.

(** The outbound call is awaited outside the [try]; only [JSON.parse]
    is inside it. *)
Definition generateISOBlueprint (config : ISOConfig) : proc json :=
  ai <- getAI ;;
  response <- await (GenerateContent ai (blueprint_request config)) ;;
  try_catch
    (JSON_parse (text_or_default (text response)))
    (fun e =>
       trigger (ConsoleError (str "Failed to parse AI response") e) ;;
       Ret (JArray [])).

(* ================================================================== *)
(** ** [src/App.tsx] *)
(* ================================================================== *)

Definition mkConfig (o : OS) (v : jsstring) (a : Arch) (h u : jsstring)
  (ps : list jsstring) (scripts : jsstring) (cloud : bool) : ISOConfig :=
  {| os := o; version := v; architecture := a; hostname := h; username := u;
     password := None; packages := ps; customScripts := scripts;
     isCloudInitEnabled := cloud |}.

(** The [config] of each entry of [TEMPLATES]. *)
Definition TEMPLATES : list ISOConfig :=
  [ mkConfig UBUNTU (str "24.04 LTS") X86_64 (str "ubuntu-srv") (str "sysadmin")
      [str "openssh-server"; str "htop"; str "curl"; str "ufw"; str "fail2ban"]
      (str "Enable UFW and allow port 22 by default. Set up a basic hardening script.")
      true;
    mkConfig DEBIAN (str "12 (Bookworm)") X86_64 (str "debian-work") (str "user")
      [str "task-gnome-desktop"; str "firefox-esr"; str "libreoffice"; str "vlc";
       str "git"]
      (str "Install non-free firmware and configure desktop environment scaling for 4K.")
      false;
    mkConfig FEDORA (str "40") X86_64 (str "fedora-cloud-node") (str "fedora")
      [str "python3"; str "dnf-plugins-core"; str "qemu-guest-agent"; str "cockpit"]
      (str "Configure cockpit for remote management and optimize swap settings for cloud instances.")
      true ].

(** The arguments of the [useState] calls. *)
Definition initial_state : AppState :=
  {| config := mkConfig UBUNTU (str "24.04 LTS") X86_64 (str "isoforge-node")
                 (str "admin")
                 [str "vim"; str "curl"; str "docker.io"; str "git"] [] true;
     newPackage := [];
     isGenerating := false;
     logs := [];
     generatedFiles := JArray [];
     activeStep := 1 |}.

(** [Array.prototype.includes] on an array of strings. *)
Definition includes (l : list jsstring) (x : jsstring) : bool :=
  existsb (str_eqb x) l.

(** Truthiness of a string: the empty string is the only falsy one. *)
Definition truthy (s : jsstring) : bool :=
  match s with
  | [] => false
  | _ :: _ => true
  end.

Definition addLog (message : jsstring) (type : LogType) : proc unit :=
  timestamp <- trigger Now ;;
  trigger (SetLogs (fun prev =>
    prev ++ [{| timestamp := timestamp; message := message; type := type |}])).

Definition loadTemplate (templateConfig : ISOConfig) : proc unit :=
  trigger (SetConfig (fun _ => templateConfig)) ;;
  trigger (SetGeneratedFiles (JArray [])) ;;
  trigger (SetLogs (fun _ => [])) ;;
  addLog (str "Loaded " ++ OS_value (os templateConfig)
            ++ str " template configuration.") info.

(** The handlers close over the state of the render they belong to:
    [rendered] is that state.  Updaters ([prev => ...]) receive the
    state current when they are applied. *)
Definition addPackage (rendered : AppState) : proc unit :=
  if truthy (newPackage rendered)
     && negb (includes (packages (config rendered)) (newPackage rendered))
  then
    trigger (SetConfig (fun prev =>
      with_packages prev (packages prev ++ [newPackage rendered]))) ;;
    trigger (SetNewPackage [])
  else Ret tt.

Definition removePackage (pkg : jsstring) : proc unit :=
  trigger (SetConfig (fun prev =>
    with_packages prev (filter (fun p => negb (str_eqb p pkg)) (packages prev)))).

Definition sleep (ms : nat) : proc unit := trigger (SetTimeout ms).

Definition handleGenerate (rendered : AppState) : proc unit :=
  let config := config rendered in
  trigger (SetIsGenerating true) ;;
  trigger (SetGeneratedFiles (JArray [])) ;;
  trigger (SetLogs (fun _ => [])) ;;
  addLog (str "Initializing ISOForge AI engine...") info ;;
  addLog (str "Target Distribution: " ++ OS_value (os config) ++ str " "
            ++ version config) info ;;
  try_finally
    (try_catch
       (addLog (str "Consulting AI Architect for optimal partitioning and package dependencies...") info ;;
        files <- generateISOBlueprint config ;;
        sleep 800 ;;
        addLog (str "Analyzing package manifest...") info ;;
        sleep 600 ;;
        addLog (str "Drafting autoinstall/preseed configurations...") info ;;
        sleep 1000 ;;
        addLog (str "Synthesizing bootloader menu and kernel parameters...") info ;;
        trigger (SetGeneratedFiles files) ;;
        addLog (str "ISO Blueprint successfully synthesized!") success ;;
        trigger (SetActiveStep 2))
       (fun err =>
          addLog (str "Architectural failure: " ++ exn_message err) error))
    (trigger (SetIsGenerating false)).

Definition downloadAll (rendered : AppState) : proc unit :=
  trigger (Download
    (str "isoforge-" ++ toLowerCase (OS_value (os (config rendered)))
       ++ str "-config.json")
    (toUSVString (JSON.stringify (generatedFiles rendered) 2))) ;;
  addLog (str "Blueprint bundle downloaded successfully.") success.

(* ================================================================== *)
(** ** Running procedures *)
(* ================================================================== *)

(** What the environment decides: the wall clock, read by the number of
    the reading, the credential of the process configuration, and how
    the completion service settles a request. *)
Record Env : Type := {
  clock : nat -> jsstring;
  API_KEY : option jsstring;
  service : GoogleGenAI -> Request -> exn + Response
}.

(** The client [getAI] builds in an environment, and how the request of
    [generateISOBlueprint] is settled there. *)
Definition client (env : Env) : GoogleGenAI :=
  {| apiKey := match API_KEY env with
               | Some (c :: r) => c :: r
               | _ => []
               end |}.

Definition settled (env : Env) (config : ISOConfig) : exn + Response :=
  service env (client env) (blueprint_request config).

Inductive cell : Type :=
| CConfig | CNewPackage | CIsGenerating | CLogs | CGeneratedFiles | CActiveStep.

(** The effects in the order they happened, without their payload. *)
Inductive label : Type :=
| LWrite (c : cell)
| LNow
| LConsole
| LEnv
| LCall
| LTimer (ms : nat)
| LDownload.

Record World : Type := {
  state : AppState;
  clock_reads : nat;
  history : list label;
  console : list jsstring;
  downloads : list (jsstring * jsstring)
}.

Definition new_world (st : AppState) : World :=
  {| state := st; clock_reads := 0; history := []; console := []; downloads := [] |}.

Definition write (c : cell) (f : AppState -> AppState) (w : World) : World :=
  {| state := f (state w); clock_reads := clock_reads w;
     history := history w ++ [LWrite c]; console := console w;
     downloads := downloads w |}.

Definition note (l : label) (w : World) : World :=
  {| state := state w; clock_reads := clock_reads w; history := history w ++ [l];
     console := console w; downloads := downloads w |}.

Definition set_config (u : ISOConfig -> ISOConfig) (s : AppState) : AppState :=
  {| config := u (config s); newPackage := newPackage s;
     isGenerating := isGenerating s; logs := logs s;
     generatedFiles := generatedFiles s; activeStep := activeStep s |}.

Definition set_newPackage (v : jsstring) (s : AppState) : AppState :=
  {| config := config s; newPackage := v; isGenerating := isGenerating s;
     logs := logs s; generatedFiles := generatedFiles s;
     activeStep := activeStep s |}.

Definition set_isGenerating (v : bool) (s : AppState) : AppState :=
  {| config := config s; newPackage := newPackage s; isGenerating := v;
     logs := logs s; generatedFiles := generatedFiles s;
     activeStep := activeStep s |}.

Definition set_logs (u : list BuildLog -> list BuildLog) (s : AppState) : AppState :=
  {| config := config s; newPackage := newPackage s;
     isGenerating := isGenerating s; logs := u (logs s);
     generatedFiles := generatedFiles s; activeStep := activeStep s |}.

Definition set_generatedFiles (v : json) (s : AppState) : AppState :=
  {| config := config s; newPackage := newPackage s;
     isGenerating := isGenerating s; logs := logs s; generatedFiles := v;
     activeStep := activeStep s |}.

Definition set_activeStep (v : nat) (s : AppState) : AppState :=
  {| config := config s; newPackage := newPackage s;
     isGenerating := isGenerating s; logs := logs s;
     generatedFiles := generatedFiles s; activeStep := v |}.

(** One effect, settled by the environment. *)
Definition perform (env : Env) {X : Type} (e : eff X) (w : World) : X * World :=
  match e in eff T return T * World with
  | SetConfig u => (tt, write CConfig (set_config u) w)
  | SetNewPackage v => (tt, write CNewPackage (set_newPackage v) w)
  | SetIsGenerating v => (tt, write CIsGenerating (set_isGenerating v) w)
  | SetLogs u => (tt, write CLogs (set_logs u) w)
  | SetGeneratedFiles v => (tt, write CGeneratedFiles (set_generatedFiles v) w)
  | SetActiveStep v => (tt, write CActiveStep (set_activeStep v) w)
  | Now =>
    (clock env (clock_reads w),
     {| state := state w; clock_reads := S (clock_reads w);
        history := history w ++ [LNow]; console := console w;
        downloads := downloads w |})
  | ConsoleError m _ =>
    (tt,
     {| state := state w; clock_reads := clock_reads w;
        history := history w ++ [LConsole]; console := console w ++ [m];
        downloads := downloads w |})
  | ProcessEnvApiKey => (API_KEY env, note LEnv w)
  | GenerateContent ai req => (service env ai req, note LCall w)
  | SetTimeout ms => (tt, note (LTimer ms) w)
  | Download f d =>
    (tt,
     {| state := state w; clock_reads := clock_reads w;
        history := history w ++ [LDownload]; console := console w;
        downloads := downloads w ++ [(f, d)] |})
  end.

(** How a procedure ends: the promise of an [async] function is
    fulfilled with a value or rejected with what was thrown. *)
Inductive outcome (A : Type) : Type :=
| Fulfilled (a : A)
| Rejected (e : exn).

Arguments Fulfilled {A} a.
Arguments Rejected {A} e.

(** A whole invocation, with nothing else scheduled in between. *)
Fixpoint run (env : Env) {A : Type} (p : proc A) (w : World) : outcome A * World :=
  match p with
  | Ret a => (Fulfilled a, w)
  | Throw e => (Rejected e, w)
  | Vis e k => let (x, w') := perform env e w in run env (k x) w'
  end.

(* ================================================================== *)
(** ** The event loop *)
(* ================================================================== *)

(** The effects at which an [async] function is suspended and other
    events can be handled: the two [await]ed promises that settle later. *)
Definition suspends {X : Type} (e : eff X) : bool :=
  match e with
  | GenerateContent _ _ => true
  | SetTimeout _ => true
  | _ => false
  end.

Definition label_of {X : Type} (e : eff X) : label :=
  match e with
  | SetConfig _ => LWrite CConfig
  | SetNewPackage _ => LWrite CNewPackage
  | SetIsGenerating _ => LWrite CIsGenerating
  | SetLogs _ => LWrite CLogs
  | SetGeneratedFiles _ => LWrite CGeneratedFiles
  | SetActiveStep _ => LWrite CActiveStep
  | Now => LNow
  | ConsoleError _ _ => LConsole
  | ProcessEnvApiKey => LEnv
  | GenerateContent _ _ => LCall
  | SetTimeout ms => LTimer ms
  | Download _ _ => LDownload
  end.

Inductive status (A : Type) : Type :=
| Done (o : outcome A)
| Waiting (p : proc A).

Arguments Done {A} o.
Arguments Waiting {A} p.

(** Runs a procedure up to its next suspension point.  The request or
    the timer is issued there ([history] records it); the procedure that
    waits is kept as it is, with the suspending effect at its head. *)
Fixpoint advance (env : Env) {A : Type} (p : proc A) (w : World)
  : status A * World :=
  match p with
  | Ret a => (Done (Fulfilled a), w)
  | Throw e => (Done (Rejected e), w)
  | Vis e k =>
    if suspends e then (Waiting (Vis e k), note (label_of e) w)
    else let (x, w') := perform env e w in advance env (k x) w'
  end.

(** The procedure that goes on when the completion service settles the
    request a task waits for. *)
Definition on_reply (r : exn + Response) (p : proc unit) : option (proc unit) :=
  match p with
  | Vis e k =>
    match e in eff X return (X -> proc unit) -> option (proc unit) with
    | GenerateContent _ _ => fun k => Some (k r)
    | _ => fun _ => None
    end k
  | _ => None
  end.

Definition on_timer (p : proc unit) : option (proc unit) :=
  match p with
  | Vis e k =>
    match e in eff X return (X -> proc unit) -> option (proc unit) with
    | SetTimeout _ => fun k => Some (k tt)
    | _ => fun _ => None
    end k
  | _ => None
  end.

Definition awaits_call (p : proc unit) : bool :=
  match p with
  | Vis e _ => match e with GenerateContent _ _ => true | _ => false end
  | _ => false
  end.

(** The page: the component state and the handlers that are suspended. *)
Record System : Type := {
  world : World;
  pending : list (proc unit)
}.

Definition boot : System :=
  {| world := new_world initial_state; pending := [] |}.

(** Requests that have reached the completion service and are not settled. *)
Definition in_flight (s : System) : nat :=
  List.length (filter awaits_call (pending s)).

(** Starts a handler and parks it if it suspends. *)
Definition spawn (env : Env) (p : proc unit) (s : System) : System :=
  let (st, w') := advance env p (world s) in
  match st with
  | Done _ => {| world := w'; pending := pending s |}
  | Waiting p' => {| world := w'; pending := pending s ++ [p'] |}
  end.

(** The first suspended handler that [pick] can resume, taken out. *)
Fixpoint take_first (pick : proc unit -> option (proc unit)) (l : list (proc unit))
  : option (proc unit * list (proc unit)) :=
  match l with
  | [] => None
  | p :: rest =>
    match pick p with
    | Some p' => Some (p', rest)
    | None =>
      match take_first pick rest with
      | Some (p', rest') => Some (p', p :: rest')
      | None => None
      end
    end
  end.

Definition resume (env : Env) (pick : proc unit -> option (proc unit))
  (s : System) : System :=
  match take_first pick (pending s) with
  | Some (p, rest) => spawn env p {| world := world s; pending := rest |}
  | None => s
  end.

(** What can happen to the page: the user acts on a control that the
    render shows, or a pending promise settles. *)
Inductive event : Type :=
| ClickTemplate (i : nat)
| ClickOS (o : OS)
| ChangeArchitecture (a : Arch)
| ChangeVersion (v : jsstring)
| ChangeHostname (v : jsstring)
| ChangeUsername (v : jsstring)
| ChangeCloudInit (checked : bool)
| ChangeCustomScripts (v : jsstring)
| ChangeNewPackage (v : jsstring)
| SubmitPackage
| ClickRemovePackage (pkg : jsstring)
| ClickGenerate
| ClickDownload
| ServiceSettles (r : exn + Response)
| TimerFires.

(** [onChange={(e) => setConfig({...config, field: value})}] *)
Definition setConfig_from (c : ISOConfig) : proc unit :=
  trigger (SetConfig (fun _ => c)).

(** One event, handled to completion or to the next suspension point.
    A control that is absent or disabled in the current render
    dispatches nothing: the generate button has [disabled={isGenerating}]
    and the download button is rendered when [generatedFiles.length > 0].
    (What [FileTabs] renders, or fails to render, for a value that is
    not a list of artifacts is outside this model.) *)
Definition step (env : Env) (s : System) (ev : event) : System :=
  let rendered := state (world s) in
  let c := config rendered in
  match ev with
  | ClickTemplate i =>
    match nth_error TEMPLATES i with
    | Some t => spawn env (loadTemplate t) s
    | None => s
    end
  | ClickOS o => spawn env (setConfig_from (with_os c o)) s
  | ChangeArchitecture a => spawn env (setConfig_from (with_architecture c a)) s
  | ChangeVersion v => spawn env (setConfig_from (with_version c v)) s
  | ChangeHostname v => spawn env (setConfig_from (with_hostname c v)) s
  | ChangeUsername v => spawn env (setConfig_from (with_username c v)) s
  | ChangeCloudInit b => spawn env (setConfig_from (with_isCloudInitEnabled c b)) s
  | ChangeCustomScripts v => spawn env (setConfig_from (with_customScripts c v)) s
  | ChangeNewPackage v => spawn env (trigger (SetNewPackage v)) s
  | SubmitPackage => spawn env (addPackage rendered) s
  | ClickRemovePackage pkg => spawn env (removePackage pkg) s
  | ClickGenerate =>
    if isGenerating rendered then s else spawn env (handleGenerate rendered) s
  | ClickDownload =>
    if length_positive (generatedFiles rendered)
    then spawn env (downloadAll rendered) s
    else s
  | ServiceSettles r => resume env (on_reply r) s
  | TimerFires => resume env on_timer s
  end.

Definition steps (env : Env) (s : System) (evs : list event) : System :=
  fold_left (step env) evs s.

(* ================================================================== *)
(** ** Worlds reached by the handlers *)
(* ================================================================== *)

(** The log line [addLog] appends when the clock has been read [n] times. *)
Definition log_line (env : Env) (n : nat) (m : jsstring) (t : LogType) : BuildLog :=
  {| timestamp := clock env n; message := m; type := t |}.

(** The world after [addLog m t]. *)
Definition logged (env : Env) (m : jsstring) (t : LogType) (w : World) : World :=
  {| state := set_logs (fun prev => prev ++ [log_line env (clock_reads w) m t]) (state w);
     clock_reads := S (clock_reads w);
     history := history w ++ [LNow; LWrite CLogs];
     console := console w;
     downloads := downloads w |}.

(** The world after the call settled. *)
Definition called (w : World) : World := note LCall (note LEnv w).

(** The world after the call settled with a text that is not JSON. *)
Definition parse_failed (w : World) : World :=
  {| state := state w; clock_reads := clock_reads w;
     history := history w ++ [LEnv; LCall; LConsole];
     console := console w ++ [str "Failed to parse AI response"];
     downloads := downloads w |}.


(** The world when [handleGenerate] reaches the outbound call: the flag
    is raised, the artifacts and the log are reset, three lines are logged. *)
Definition started (env : Env) (rendered : AppState) (w : World) : World :=
  logged env (str "Consulting AI Architect for optimal partitioning and package dependencies...") info
    (logged env (str "Target Distribution: " ++ OS_value (os (config rendered))
                   ++ str " " ++ version (config rendered)) info
       (logged env (str "Initializing ISOForge AI engine...") info
          (write CLogs (set_logs (fun _ => []))
             (write CGeneratedFiles (set_generatedFiles (JArray []))
                (write CIsGenerating (set_isGenerating true) w))))).

(** From the value the service operation returned to the end of the
    [try] block and the [finally]. *)
Definition completed (env : Env) (files : json) (w : World) : World :=
  write CIsGenerating (set_isGenerating false)
    (write CActiveStep (set_activeStep 2)
       (logged env (str "ISO Blueprint successfully synthesized!") success
          (write CGeneratedFiles (set_generatedFiles files)
             (logged env (str "Synthesizing bootloader menu and kernel parameters...") info
                (note (LTimer 1000)
                   (logged env (str "Drafting autoinstall/preseed configurations...") info
                      (note (LTimer 600)
                         (logged env (str "Analyzing package manifest...") info
                            (note (LTimer 800) w))))))))).

(** The [catch] block and the [finally]. *)
Definition failed (env : Env) (e : exn) (w : World) : World :=
  write CIsGenerating (set_isGenerating false)
    (logged env (str "Architectural failure: " ++ exn_message e) error w).

(** The world after [loadTemplate]. *)
Definition template_loaded (env : Env) (t : ISOConfig) (w : World) : World :=
  logged env (str "Loaded " ++ OS_value (os t) ++ str " template configuration.") info
    (write CLogs (set_logs (fun _ => []))
       (write CGeneratedFiles (set_generatedFiles (JArray []))
          (write CConfig (set_config (fun _ => t)) w))).

(** The world after [downloadAll]. *)
Definition downloaded (env : Env) (rendered : AppState) (w : World) : World :=
  logged env (str "Blueprint bundle downloaded successfully.") success
    {| state := state w; clock_reads := clock_reads w;
       history := history w ++ [LDownload]; console := console w;
       downloads := downloads w ++
         [(str "isoforge-" ++ toLowerCase (OS_value (os (config rendered)))
             ++ str "-config.json",
           toUSVString (JSON.stringify (generatedFiles rendered) 2))] |}.

(* ================================================================== *)
(** ** Vocabulary of the properties *)
(* ================================================================== *)

Definition packages_of (s : System) : list jsstring :=
  packages (config (state (world s))).

(** One package-add operation: the name is typed into the input field,
    then submitted with Enter or the plus button. *)
Definition add_package (env : Env) (s : System) (pkg : jsstring) : System :=
  step env (step env s (ChangeNewPackage pkg)) SubmitPackage.

(** An object that has the three members of the declared schema. *)
Definition carries_fields (v : json) : bool :=
  match v with
  | JObject fs =>
    JSON.has_key (str "name") fs && JSON.has_key (str "content") fs
      && JSON.has_key (str "language") fs
  | _ => false
  end.

Definition is_error (l : BuildLog) : bool :=
  match type l with
  | error => true
  | _ => false
  end.

(** The error-severity entries of a log. *)
Definition error_entries (l : list BuildLog) : list BuildLog := filter is_error l.

(** The indentation unit of [JSON.stringify(value, null, 2)], which is
    also the indentation of the elements of the top-level array, and the
    separator of those elements. *)
Definition gap2 : jsstring := [32%N; 32%N].
Definition element_sep : jsstring := [44%N; 10%N; 32%N; 32%N].

(** An environment whose clock always reads noon and whose completion
    service settles every request the same way. *)
Definition env_replying (r : exn + Response) : Env :=
  {| clock := fun _ => str "12:00:00 PM"; API_KEY := Some (str "test-key");
     service := fun _ _ => r |}.

Definition is_suspension (l : label) : bool :=
  match l with
  | LCall => true
  | LTimer _ => true
  | _ => false
  end.

Definition is_write (l : label) : bool :=
  match l with
  | LWrite _ => true
  | _ => false
  end.

(** The suspension points of an execution, in order. *)
Definition suspension_points (h : list label) : list label := filter is_suspension h.

(** What happened before the outbound call was issued. *)
Fixpoint before_call (h : list label) : list label :=
  match h with
  | [] => []
  | LCall :: _ => []
  | l :: r => l :: before_call r
  end.

(** The effects of [handleGenerate] up to the outbound call ... *)
Definition resets_before_call : list label :=
  [LWrite CIsGenerating; LWrite CGeneratedFiles; LWrite CLogs;
   LNow; LWrite CLogs; LNow; LWrite CLogs; LNow; LWrite CLogs; LEnv].

(** ... after it when the service operation returned a value ... *)
Definition success_path : list label :=
  [LTimer 800; LNow; LWrite CLogs; LTimer 600; LNow; LWrite CLogs;
   LTimer 1000; LNow; LWrite CLogs; LWrite CGeneratedFiles;
   LNow; LWrite CLogs; LWrite CActiveStep; LWrite CIsGenerating].

(** ... and after it when the call threw. *)
Definition failure_path : list label :=
  [LNow; LWrite CLogs; LWrite CIsGenerating].

(** *** Shapes of procedures, by what they do to the [isGenerating] flag *)

Definition writes_flag {X : Type} (e : eff X) : bool :=
  match e with
  | SetIsGenerating _ => true
  | _ => false
  end.

(** A procedure that never writes the flag; [throws] tells whether it
    may throw, [waits] whether it may suspend. *)
Inductive tame (throws waits : bool) {A : Type} : proc A -> Prop :=
| tame_ret (a : A) : tame throws waits (Ret a)
| tame_throw (e : exn) : throws = true -> tame throws waits (Throw e)
| tame_vis (X : Type) (e : eff X) (k : X -> proc A) :
    writes_flag e = false ->
    (suspends e = true -> waits = true) ->
    (forall x : X, tame throws waits (k x)) ->
    tame throws waits (Vis e k).

Definition ends {A : Type} (p : proc A) : Prop :=
  match p with
  | Vis _ _ => False
  | _ => True
  end.

(** A procedure that leaves the flag alone until it lowers it as its
    last effect. *)
Inductive releases : proc unit -> Prop :=
| releases_now (k : unit -> proc unit) :
    (forall x : unit, ends (k x)) -> releases (Vis (SetIsGenerating false) k)
| releases_later (X : Type) (e : eff X) (k : X -> proc unit) :
    writes_flag e = false ->
    (forall x : X, releases (k x)) ->
    releases (Vis e k).

(** A suspended handler that will release the flag. *)
Inductive parked : proc unit -> Prop :=
| parked_at (X : Type) (e : eff X) (k : X -> proc unit) :
    suspends e = true ->
    (forall x : X, releases (k x)) ->
    parked (Vis e k).

(** The page is idle, or one generation is under way and holds the flag. *)
Definition one_generation (s : System) : Prop :=
  match pending s with
  | [] => isGenerating (state (world s)) = false
  | [p] => isGenerating (state (world s)) = true /\ parked p
  | _ :: _ :: _ => False
  end.

(** The document of the last download. *)
Definition exported (w : World) : option jsstring :=
  match rev (downloads w) with
  | (_, document) :: _ => Some document
  | [] => None
  end.

(** *** Sample inputs *)

Definition readme : GeneratedFile :=
  {| name := str "README.md"; content := str "# Build with xorriso";
     language := str "markdown" |}.

Definition build_script : GeneratedFile :=
  {| name := str "build.sh"; content := str "xorriso -as mkisofs -o out.iso .";
     language := str "bash" |}.

(** A well-formed response with two artifacts. *)
Definition two_files_text : jsstring :=
  json_text "[{'name':'README.md','content':'# Build with xorriso','language':'markdown'}, {'name':'build.sh','content':'xorriso -as mkisofs -o out.iso .','language':'bash'}]".

Definition replying_text (t : jsstring) : Env :=
  env_replying (inr {| text := Some t |}).

(* ================================================================== *)
(** ** Invariants and runs of the event loop *)
(* ================================================================== *)

Unset Implicit Arguments.

(** An effect whose state write, if it has one, keeps [Inv]. *)
Definition preserves (Inv : AppState -> Prop) {X : Type} (e : eff X) : Prop :=
  forall (env : Env) (w : World),
    Inv (state w) -> Inv (state (snd (perform env e w))).

(** A procedure all of whose effects keep [Inv], whatever it is answered. *)
Inductive keeps (Inv : AppState -> Prop) {A : Type} : proc A -> Prop :=
| keeps_ret (a : A) : keeps Inv (Ret a)
| keeps_throw (e : exn) : keeps Inv (Throw e)
| keeps_vis (X : Type) (e : eff X) (k : X -> proc A) :
    preserves Inv e ->
    (forall x : X, keeps Inv (k x)) ->
    keeps Inv (Vis e k).

(** A property of the state that the writes of a generation cannot
    break: it does not look at the flag, the artifacts or the log, and
    it survives the step indicator being set to 2. *)
Record generation_stable (Inv : AppState -> Prop) : Prop := {
  stable_isGenerating : forall v st, Inv st -> Inv (set_isGenerating v st);
  stable_generatedFiles : forall v st, Inv st -> Inv (set_generatedFiles v st);
  stable_logs : forall u st, Inv st -> Inv (set_logs u st);
  stable_activeStep : forall st, Inv st -> Inv (set_activeStep 2 st)
}.

(** A package list as the page keeps it: no name twice, no empty name. *)
Definition sound_packages (ps : list jsstring) : Prop :=
  NoDup ps /\ Forall (fun p => truthy p = true) ps.

(** A property of the state that does not look at the configuration or
    at the package input. *)
Record form_blind (Inv : AppState -> Prop) : Prop := {
  blind_config : forall u st, Inv st -> Inv (set_config u st);
  blind_newPackage : forall v st, Inv st -> Inv (set_newPackage v st)
}.






(** ** [getAIAssistance] *)

(** The request of [getAIAssistance]: a system instruction instead of an
    output schema. *)
Record AssistanceRequest : Type := {
  assistance_model : jsstring;
  assistance_contents : jsstring;
  systemInstruction : jsstring
}.

Definition assistance_request (query : jsstring) (currentConfig : ISOConfig)
  : AssistanceRequest :=
  {| assistance_model := str "gemini-3-flash-preview";
     assistance_contents :=
       str "The user is configuring a bootable ISO for "
         ++ OS_value (os currentConfig) ++ str ". Question: " ++ query;
     systemInstruction :=
       str "You are an expert Linux System Administrator specializing in custom bootable images and automated deployments." |}.

(** [getAIAssistance(query, currentConfig)], with the way the completion
    service settles such a request as an argument; the result is how
    the promise of the function settles. *)
Definition getAIAssistance (env : Env)
  (ask : GoogleGenAI -> AssistanceRequest -> exn + Response)
  (query : jsstring) (currentConfig : ISOConfig) : outcome jsstring :=
  let ai := client env in
  match ask ai (assistance_request query currentConfig) with
  | inl e => Rejected e
  | inr response =>
    Fulfilled
      match text response with
      | Some (c :: r) => c :: r
      | _ => str "Sorry, I couldn't process that request."
      end
  end.

(** ** [FileTabs] *)

Record Tab : Type := {
  caption : jsstring;
  highlighted : bool;
  selects : nat
}.

(** [files.map((file, idx) => <button ...>)], from index [idx] on. *)
Fixpoint tabs_from (idx : nat) (files : list GeneratedFile) (activeIdx : nat)
  : list Tab :=
  match files with
  | [] => []
  | file :: rest =>
    {| caption := name file; highlighted := Nat.eqb activeIdx idx; selects := idx |}
      :: tabs_from (S idx) rest activeIdx
  end.

(** What [FileTabs] renders for its [files] and its [activeIdx] state:
    nothing for an empty list, else the tabs and the text of
    [files[activeIdx]?.content]. *)
Definition FileTabs (files : list GeneratedFile) (activeIdx : nat)
  : option (list Tab * option jsstring) :=
  match files with
  | [] => None
  | _ :: _ =>
    Some (tabs_from 0 files activeIdx, option_map content (nth_error files activeIdx))
  end.


(** Two configurations that agree on everything but the version and the
    password. *)
Definition same_for_service (c1 c2 : ISOConfig) : Prop :=
  os c1 = os c2 /\ architecture c1 = architecture c2
  /\ hostname c1 = hostname c2 /\ username c1 = username c2
  /\ packages c1 = packages c2 /\ customScripts c1 = customScripts c2
  /\ isCloudInitEnabled c1 = isCloudInitEnabled c2.
(* ================================================================== *)
(** * Properties *)
(* ================================================================== *)

Unset Implicit Arguments.

Arguments str : simpl never.
Arguments prompt : simpl never.
Arguments blueprint_request : simpl never.
Arguments JSON.parse : simpl never.
Arguments JSON.stringify : simpl never.

(** ** Strings and lists *)

Lemma str_eqb_eq (a b : jsstring) : str_eqb a b = true <-> a = b.
Proof.
  revert b. induction a as [|x a IH]; intros [|y b]; simpl; split;
    try congruence; try reflexivity.
  - intros H. apply andb_true_iff in H as [Hx Hab].
    apply N.eqb_eq in Hx. apply IH in Hab. congruence.
  - intros H. injection H as -> ->. rewrite N.eqb_refl. simpl.
    apply IH. reflexivity.
Qed.

Lemma str_eqb_refl (a : jsstring) : str_eqb a a = true.
Proof. apply str_eqb_eq. reflexivity. Qed.

Lemma includes_In (l : list jsstring) (x : jsstring) :
  includes l x = true <-> In x l.
Proof.
  unfold includes. rewrite existsb_exists. split.
  - intros [y [Hin Heq]]. apply str_eqb_eq in Heq. subst. exact Hin.
  - intros Hin. exists x. split; [exact Hin | apply str_eqb_refl].
Qed.

Lemma includes_not_In (l : list jsstring) (x : jsstring) :
  includes l x = false <-> ~ In x l.
Proof.
  rewrite <- includes_In. destruct (includes l x); split; congruence.
Qed.

(** ** [JSON.parse] after [JSON.stringify] *)

Section JSONFacts.

Local Open Scope N_scope.

Lemma hex_val_digit (n : N) : n < 16 -> JSON.hex_val (JSON.hex_digit n) = Some n.
Proof.
  intros Hn. unfold JSON.hex_digit, JSON.hex_val, JSON.is_digit.
  destruct (N.ltb_spec n 10).
  - replace ((48 <=? 48 + n) && (48 + n <=? 57)) with true.
    + f_equal. lia.
    + symmetry. apply andb_true_iff. split; apply N.leb_le; lia.
  - replace ((48 <=? 87 + n) && (87 + n <=? 57)) with false.
    + replace ((97 <=? 87 + n) && (87 + n <=? 102)) with true.
      * f_equal. lia.
      * symmetry. apply andb_true_iff. split; apply N.leb_le; lia.
    + symmetry. apply andb_false_iff. right. apply N.leb_gt. lia.
Qed.

Lemma hex4_unicode (c : N) : c < 65536 ->
  JSON.hex4 (JSON.hex_digit ((c / 4096) mod 16)) (JSON.hex_digit ((c / 256) mod 16))
            (JSON.hex_digit ((c / 16) mod 16)) (JSON.hex_digit (c mod 16)) = Some c.
Proof.
  intros Hc. unfold JSON.hex4.
  rewrite !hex_val_digit by (apply N.mod_lt; discriminate).
  f_equal. zify. Z.to_euclidean_division_equations. lia.
Qed.


Lemma parse_chars_literal (c : N) (r : jsstring) :
  c <> 34 -> c <> 92 -> 32 <= c ->
  JSON.parse_chars (c :: r) = JSON.prepend c (JSON.parse_chars r).
Proof.
  intros H1 H2 H3. cbn [JSON.parse_chars].
  apply N.eqb_neq in H1, H2. rewrite H1, H2.
  replace (c <? 32) with false by (symmetry; apply N.ltb_ge; exact H3).
  reflexivity.
Qed.

Lemma parse_chars_unicode (c : N) (r : jsstring) :
  c < 65536 ->
  JSON.parse_chars (JSON.unicode_escape c ++ r) = JSON.prepend c (JSON.parse_chars r).
Proof.
  intros Hc. unfold JSON.unicode_escape. cbn [app JSON.parse_chars].
  change (92 =? 34) with false. change (92 =? 92) with true.
  change (117 =? 117) with true. cbv iota.
  rewrite (hex4_unicode c Hc). reflexivity.
Qed.

Lemma parse_chars_escape_unit (c : N) (r : jsstring) :
  JSON.is_high c = false ->
  JSON.parse_chars (JSON.escape_unit c ++ r) = JSON.prepend c (JSON.parse_chars r).
Proof.
  intros Hh. unfold JSON.escape_unit.
  destruct (N.eqb_spec c 8) as [->|H8]; [reflexivity|].
  destruct (N.eqb_spec c 9) as [->|H9]; [reflexivity|].
  destruct (N.eqb_spec c 10) as [->|H10]; [reflexivity|].
  destruct (N.eqb_spec c 12) as [->|H12]; [reflexivity|].
  destruct (N.eqb_spec c 13) as [->|H13]; [reflexivity|].
  destruct (N.eqb_spec c 34) as [->|H34]; [reflexivity|].
  destruct (N.eqb_spec c 92) as [->|H92]; [reflexivity|].
  rewrite Hh, orb_false_r.
  destruct (N.ltb_spec c 32) as [Hlt|Hge]; simpl orb.
  - apply parse_chars_unicode. lia.
  - destruct (JSON.is_low c) eqn:Hl.
    + apply parse_chars_unicode. unfold JSON.is_low in Hl.
      apply andb_true_iff in Hl as [_ Hl]. apply N.leb_le in Hl. lia.
    + apply parse_chars_literal; assumption.
Qed.

Lemma surrogate_literal (c : N) :
  JSON.is_high c = true \/ JSON.is_low c = true -> c <> 34 /\ c <> 92 /\ 32 <= c /\ c < 65536.
Proof.
  unfold JSON.is_high, JSON.is_low.
  intros [H|H]; apply andb_true_iff in H as [H1 H2];
    apply N.leb_le in H1, H2; lia.
Qed.

Lemma parse_chars_quote_chars (s rest : jsstring) :
  JSON.parse_chars (JSON.quote_chars s ++ 34 :: rest) = Some (s, rest).
Proof.
  remember (List.length s) as n eqn:Hn.
  assert (Hle : (List.length s <= n)%nat) by lia. clear Hn.
  revert s Hle. induction n as [|n IH]; intros s Hle.
  - destruct s; [reflexivity | simpl in Hle; lia].
  - destruct s as [|c r]; [reflexivity|]. simpl in Hle.
    cbn [JSON.quote_chars].
    destruct (JSON.is_high c) eqn:Hh.
    + destruct (surrogate_literal c (or_introl Hh)) as (H1 & H2 & H3 & H4).
      destruct r as [|d r'].
      * rewrite parse_chars_unicode by exact H4. reflexivity.
      * destruct (JSON.is_low d) eqn:Hl.
        -- destruct (surrogate_literal d (or_intror Hl)) as (D1 & D2 & D3 & D4).
           cbn [app]. rewrite parse_chars_literal by assumption.
           rewrite parse_chars_literal by assumption.
           rewrite IH by (simpl in Hle; lia). reflexivity.
        -- rewrite <- app_assoc, parse_chars_unicode by exact H4.
           rewrite IH by lia. reflexivity.
    + rewrite <- app_assoc, parse_chars_escape_unit by exact Hh.
      rewrite IH by lia. reflexivity.
Qed.

(** *** Fuel *)
Ltac crunch IHv IHe IHm m Hle H :=
  repeat first
    [ match type of H with
      | context [JSON.parse_value ?n ?l] =>
        let E := fresh "E" in
        destruct (JSON.parse_value n l) as [[? ?]|] eqn:E;
        [rewrite (IHv m _ _ Hle E) | discriminate H]
      end
    | match type of H with
      | context [JSON.parse_elements ?n ?l] =>
        let E := fresh "E" in
        destruct (JSON.parse_elements n l) as [[? ?]|] eqn:E;
        [rewrite (IHe m _ _ Hle E) | discriminate H]
      end
    | match type of H with
      | context [match JSON.parse_members ?n ?a ?l with _ => _ end] =>
        let E := fresh "E" in
        destruct (JSON.parse_members n a l) as [[? ?]|] eqn:E;
        [rewrite (IHm m _ _ _ Hle E) | discriminate H]
      end
    | match type of H with
      | context [match ?x with _ => _ end] => destruct x eqn:?; try discriminate H
      end ].

Lemma parse_fuel_mono (n : nat) :
  (forall m s r, (n <= m)%nat ->
     JSON.parse_value n s = Some r -> JSON.parse_value m s = Some r)
  /\ (forall m s r, (n <= m)%nat ->
     JSON.parse_elements n s = Some r -> JSON.parse_elements m s = Some r)
  /\ (forall m acc s r, (n <= m)%nat ->
     JSON.parse_members n acc s = Some r -> JSON.parse_members m acc s = Some r).
Proof.
  induction n as [|n (IHv & IHe & IHm)].
  - repeat split; intros; discriminate.
  - repeat split.
    + intros [|m] s r Hle H; [lia|]. apply le_S_n in Hle.
      cbn [JSON.parse_value] in *.
      crunch IHv IHe IHm m Hle H; exact H.
    + intros [|m] s r Hle H; [lia|]. apply le_S_n in Hle.
      cbn [JSON.parse_elements] in *.
      crunch IHv IHe IHm m Hle H; exact H.
    + intros [|m] acc s r Hle H; [lia|]. apply le_S_n in Hle.
      cbn [JSON.parse_members] in *.
      crunch IHv IHe IHm m Hle H; first [exact H | exact (IHm m _ _ _ Hle H)].
Qed.


Lemma length_skip_ws (s : jsstring) :
  (List.length (JSON.skip_ws s) <= List.length s)%nat.
Proof.
  induction s as [|c r IH]; simpl; [lia|].
  destruct (JSON.is_ws c); simpl; lia.
Qed.

Lemma length_prepend (c : N) (o : option (jsstring * jsstring)) (cs rest : jsstring) :
  JSON.prepend c o = Some (cs, rest) ->
  exists cs', o = Some (cs', rest).
Proof.
  destruct o as [[cs' rest']|]; simpl; [|discriminate].
  intros H. injection H as _ <-. eauto.
Qed.

Lemma length_parse_chars (s cs rest : jsstring) :
  JSON.parse_chars s = Some (cs, rest) ->
  (List.length rest < List.length s)%nat.
Proof.
  remember (List.length s) as n eqn:Hn.
  assert (Hle : (List.length s <= n)%nat) by lia.
  rewrite Hn. clear Hn.
  revert s cs rest Hle. induction n as [|n IH]; intros s cs rest Hle H.
  - destruct s; [discriminate | simpl in Hle; lia].
  - destruct s as [|c r]; [discriminate|]. simpl in Hle.
    cbn [JSON.parse_chars] in H.
    destruct (c =? 34).
    { injection H as _ <-. simpl. lia. }
    destruct (c =? 92).
    { destruct r as [|e r1]; [discriminate|].
      destruct (e =? 117).
      - destruct r1 as [|h1 [|h2 [|h3 [|h4 r2]]]]; try discriminate.
        destruct (JSON.hex4 h1 h2 h3 h4); [|discriminate].
        apply length_prepend in H as [cs' H].
        apply IH in H; simpl in *; lia.
      - destruct (JSON.unescape e); [|discriminate].
        apply length_prepend in H as [cs' H].
        apply IH in H; simpl in *; lia. }
    destruct (c <? 32); [discriminate|].
    apply length_prepend in H as [cs' H].
    apply IH in H; simpl in *; lia.
Qed.

Lemma length_take_digits (s : jsstring) :
  (List.length (snd (JSON.take_digits s)) <= List.length s)%nat.
Proof.
  induction s as [|c r IH]; simpl; [lia|].
  destruct (JSON.is_digit c); [|simpl; lia].
  destruct (JSON.take_digits r) as [ds rest]. simpl in *. lia.
Qed.

Lemma length_parse_sign (s : jsstring) :
  (List.length (snd (JSON.parse_sign s)) <= List.length s)%nat.
Proof.
  destruct s as [|c r]; simpl; [lia|]. destruct (c =? 45); simpl; lia.
Qed.

Lemma length_parse_int (s i rest : jsstring) :
  JSON.parse_int s = Some (i, rest) -> (List.length rest <= List.length s)%nat.
Proof.
  destruct s as [|c r]; simpl; [discriminate|].
  destruct (c =? 48); [intros H; injection H as _ <-; lia|].
  destruct (JSON.is_digit c); [|discriminate].
  pose proof (length_take_digits r) as Hd.
  destruct (JSON.take_digits r) as [ds rest']. simpl in Hd.
  intros H. injection H as _ <-. lia.
Qed.

Lemma length_parse_frac (s f rest : jsstring) :
  JSON.parse_frac s = Some (f, rest) -> (List.length rest <= List.length s)%nat.
Proof.
  destruct s as [|c r]; simpl; [intros H; injection H as _ <-; simpl; lia|].
  destruct (c =? 46); [|intros H; injection H as _ <-; simpl; lia].
  pose proof (length_take_digits r) as Hd.
  destruct (JSON.take_digits r) as [[|d ds] rest']; [discriminate|]. simpl in Hd.
  intros H. injection H as _ <-. lia.
Qed.

Lemma length_parse_exp (s e rest : jsstring) :
  JSON.parse_exp s = Some (e, rest) -> (List.length rest <= List.length s)%nat.
Proof.
  destruct s as [|c r]; simpl; [intros H; injection H as _ <-; simpl; lia|].
  destruct ((c =? 101) || (c =? 69)); [|intros H; injection H as _ <-; simpl; lia].
  assert (Hsign : forall sg r1,
             match r with
             | [] => ([], [])
             | d :: r' => if (d =? 43) || (d =? 45) then ([d], r') else ([], r)
             end = (sg, r1) -> (List.length r1 <= List.length r)%nat).
  { intros sg r1. destruct r as [|d r']; [intros H; injection H as _ <-; lia|].
    destruct ((d =? 43) || (d =? 45)); intros H; injection H as _ <-; simpl; lia. }
  destruct (match r with
            | [] => ([], [])
            | d :: r' => if (d =? 43) || (d =? 45) then ([d], r') else ([], r)
            end) as [sg r1] eqn:E.
  specialize (Hsign sg r1 eq_refl).
  pose proof (length_take_digits r1) as Hd.
  destruct (JSON.take_digits r1) as [[|d ds] rest']; [discriminate|]. simpl in Hd.
  intros H. injection H as _ <-. lia.
Qed.

Lemma length_parse_number (s n rest : jsstring) :
  JSON.parse_number s = Some (n, rest) ->
  (List.length rest <= List.length s)%nat.
Proof.
  unfold JSON.parse_number. pose proof (length_parse_sign s) as Hs.
  destruct (JSON.parse_sign s) as [sg s1]. simpl in Hs.
  destruct (JSON.parse_int s1) as [[i s2]|] eqn:Ei; [|discriminate].
  destruct (JSON.parse_frac s2) as [[f s3]|] eqn:Ef; [|discriminate].
  destruct (JSON.parse_exp s3) as [[e s4]|] eqn:Ee; [|discriminate].
  intros H. injection H as _ <-.
  apply length_parse_int in Ei. apply length_parse_frac in Ef.
  apply length_parse_exp in Ee. lia.
Qed.

Lemma length_strip_prefix (p s rest : jsstring) :
  JSON.strip_prefix p s = Some rest ->
  (List.length rest <= List.length s)%nat.
Proof.
  revert s. induction p as [|x p IH]; intros s H; simpl in H.
  - injection H as <-. lia.
  - destruct s as [|y s]; [discriminate|].
    destruct (x =? y); [|discriminate]. apply IH in H. simpl. lia.
Qed.

Lemma fuel_value (s : jsstring) : (2 * List.length s + 1 = S (2 * List.length s))%nat.
Proof. lia. Qed.

Lemma fuel_list (s : jsstring) : (2 * List.length s + 2 = S (2 * List.length s + 1))%nat.
Proof. lia. Qed.

Lemma fuel_inside (r s : jsstring) :
  (S (List.length r) <= List.length s)%nat ->
  (2 * List.length r + 2 <= 2 * List.length s)%nat.
Proof. lia. Qed.

Lemma parse_enough_fuel (n : nat) :
  (forall s v r, JSON.parse_value n s = Some (v, r) ->
     (List.length r <= List.length s)%nat
     /\ JSON.parse_value (2 * List.length s + 1) s = Some (v, r))
  /\ (forall s vs r, JSON.parse_elements n s = Some (vs, r) ->
     (List.length r <= List.length s)%nat
     /\ JSON.parse_elements (2 * List.length s + 2) s = Some (vs, r))
  /\ (forall acc s fs r, JSON.parse_members n acc s = Some (fs, r) ->
     (List.length r <= List.length s)%nat
     /\ JSON.parse_members (2 * List.length s + 2) acc s = Some (fs, r)).
Proof.
  induction n as [|n (IHv & IHe & IHm)].
  - repeat split; discriminate.
  - split; [|split].
    + intros s v r H. rewrite fuel_value. cbn [JSON.parse_value] in H |- *.
      pose proof (length_skip_ws s) as Hs.
      destruct (JSON.skip_ws s) as [|c r0]; [discriminate|]. simpl in Hs.
      destruct (c =? 34).
      { destruct (JSON.parse_chars r0) as [[cs rest]|] eqn:E; [|discriminate].
        injection H as <- <-. apply length_parse_chars in E. split; [lia | reflexivity]. }
      destruct (c =? 91).
      { pose proof (length_skip_ws r0) as Hr.
        destruct (JSON.skip_ws r0) as [|d r']; [discriminate|]. simpl in Hr.
        destruct (d =? 93); [injection H as <- <-; split; [lia | reflexivity]|].
        destruct (JSON.parse_elements n r0) as [[vs rest]|] eqn:E; [|discriminate].
        injection H as <- <-. destruct (IHe _ _ _ E) as [Hlen Hfuel].
        split; [lia|].
        rewrite (proj1 (proj2 (parse_fuel_mono _)) (2 * List.length s)%nat _ _
                   (fuel_inside r0 s Hs) Hfuel).
        reflexivity. }
      destruct (c =? 123).
      { pose proof (length_skip_ws r0) as Hr.
        destruct (JSON.skip_ws r0) as [|d r']; [discriminate|]. simpl in Hr.
        destruct (d =? 125); [injection H as <- <-; split; [lia | reflexivity]|].
        destruct (JSON.parse_members n [] r0) as [[fs rest]|] eqn:E; [|discriminate].
        injection H as <- <-. destruct (IHm _ _ _ _ E) as [Hlen Hfuel].
        split; [lia|].
        rewrite (proj2 (proj2 (parse_fuel_mono _)) (2 * List.length s)%nat _ _ _
                   (fuel_inside r0 s Hs) Hfuel).
        reflexivity. }
      destruct (c =? 116).
      { destruct (JSON.strip_prefix (str "rue") r0) as [rest|] eqn:E; [|discriminate].
        injection H as <- <-. apply length_strip_prefix in E. split; [lia | reflexivity]. }
      destruct (c =? 102).
      { destruct (JSON.strip_prefix (str "alse") r0) as [rest|] eqn:E; [|discriminate].
        injection H as <- <-. apply length_strip_prefix in E. split; [lia | reflexivity]. }
      destruct (c =? 110).
      { destruct (JSON.strip_prefix (str "ull") r0) as [rest|] eqn:E; [|discriminate].
        injection H as <- <-. apply length_strip_prefix in E. split; [lia | reflexivity]. }
      destruct (JSON.parse_number (c :: r0)) as [[lit rest]|] eqn:E; [|discriminate].
      injection H as <- <-. apply length_parse_number in E. simpl in E.
      split; [lia | reflexivity].
    + intros s vs r H. rewrite fuel_list. cbn [JSON.parse_elements] in H |- *.
      destruct (JSON.parse_value n s) as [[v r0]|] eqn:Ev; [|discriminate].
      destruct (IHv _ _ _ Ev) as [Hlen Hfuel]. rewrite Hfuel.
      pose proof (length_skip_ws r0) as Hr.
      destruct (JSON.skip_ws r0) as [|c r']; [discriminate|]. simpl in Hr.
      destruct (c =? 44).
      { destruct (JSON.parse_elements n r') as [[vs' rest]|] eqn:E; [|discriminate].
        injection H as <- <-. destruct (IHe _ _ _ E) as [Hlen' Hfuel'].
        split; [lia|].
        assert (Hle : (2 * List.length r' + 2 <= 2 * List.length s + 1)%nat) by lia.
        rewrite (proj1 (proj2 (parse_fuel_mono _)) _ _ _ Hle Hfuel').
        reflexivity. }
      destruct (c =? 93); [|discriminate].
      injection H as <- <-. split; [lia | reflexivity].
    + intros acc s fs r H. rewrite fuel_list. cbn [JSON.parse_members] in H |- *.
      pose proof (length_skip_ws s) as Hs.
      destruct (JSON.skip_ws s) as [|c r0]; [discriminate|]. simpl in Hs.
      destruct (c =? 34); [|discriminate].
      destruct (JSON.parse_chars r0) as [[k r1]|] eqn:Ek; [|discriminate].
      apply length_parse_chars in Ek.
      pose proof (length_skip_ws r1) as Hr1.
      destruct (JSON.skip_ws r1) as [|c1 r2]; [discriminate|]. simpl in Hr1.
      destruct (c1 =? 58); [|discriminate].
      destruct (JSON.parse_value n r2) as [[v r3]|] eqn:Ev; [|discriminate].
      destruct (IHv _ _ _ Ev) as [Hlen Hfuel].
      assert (Hle : (2 * List.length r2 + 1 <= 2 * List.length s + 1)%nat) by lia.
      rewrite (proj1 (parse_fuel_mono _) _ _ _ Hle Hfuel).
      pose proof (length_skip_ws r3) as Hr3.
      destruct (JSON.skip_ws r3) as [|c3 r4]; [discriminate|]. simpl in Hr3.
      destruct (c3 =? 44).
      { destruct (IHm _ _ _ _ H) as [Hlen' Hfuel'].
        split; [lia|].
        assert (Hle' : (2 * List.length r4 + 2 <= 2 * List.length s + 1)%nat) by lia.
        apply (proj2 (proj2 (parse_fuel_mono _)) _ _ _ _ Hle' Hfuel'). }
      destruct (c3 =? 125); [|discriminate].
      injection H as <- <-. split; [lia | reflexivity].
Qed.

(** The fuel of [JSON.parse] is never what makes it fail: a value that
    the grammar reads with some fuel is read with the fuel [JSON.parse]
    gives itself. *)
Lemma parse_value_enough_fuel (n : nat) (text : jsstring) (v : json) (r : jsstring) :
  JSON.parse_value n text = Some (v, r) ->
  JSON.parse_value (JSON.fuel_for text) text = Some (v, r).
Proof.
  intros H. destruct (proj1 (parse_enough_fuel n) _ _ _ H) as [_ Hfuel].
  assert (Hle : (2 * List.length text + 1 <= JSON.fuel_for text)%nat)
    by (unfold JSON.fuel_for; lia).
  apply (proj1 (parse_fuel_mono _) _ _ _ Hle Hfuel).
Qed.

Lemma parse_complete (n : nat) (text : jsstring) (v : json) (r : jsstring) :
  JSON.parse_value n text = Some (v, r) ->
  JSON.skip_ws r = [] ->
  JSON.parse text = Some v.
Proof.
  intros H Hr. unfold JSON.parse.
  rewrite (parse_value_enough_fuel n text v r H), Hr. reflexivity.
Qed.

(** *** The exported text *)

Lemma parse_value_string (n : nat) (s rest : jsstring) :
  JSON.parse_value (S n) (34 :: JSON.quote_chars s ++ 34 :: rest) = Some (JString s, rest).
Proof.
  cbn [JSON.parse_value JSON.skip_ws]. change (JSON.is_ws 34) with false. cbv iota.
  change (34 =? 34) with true. cbv iota.
  rewrite parse_chars_quote_chars. reflexivity.
Qed.

(** A member whose value is a string, read at the indentation of the
    members of an array element, and followed by another member. *)
Lemma parse_member_comma (n : nat) (acc : list (jsstring * json)) (k s rest : jsstring) :
  JSON.parse_members (S (S n)) acc
    (10 :: 32 :: 32 :: 32 :: 32 :: 34 :: JSON.quote_chars k ++ 34 :: 58 :: 32
       :: 34 :: JSON.quote_chars s ++ 34 :: 44 :: rest)
  = JSON.parse_members (S n) (JSON.obj_set k (JString s) acc) rest.
Proof.
  cbn [JSON.parse_members JSON.skip_ws].
  change (JSON.is_ws 10) with true. change (JSON.is_ws 32) with true.
  change (JSON.is_ws 34) with false. cbv iota.
  change (34 =? 34) with true. cbv iota.
  rewrite parse_chars_quote_chars. cbn [JSON.skip_ws].
  change (JSON.is_ws 58) with false. cbv iota.
  change (58 =? 58) with true. cbv iota.
  change (JSON.parse_value (S n) (32 :: 34 :: JSON.quote_chars s ++ 34 :: 44 :: rest))
    with (JSON.parse_value (S n) (34 :: JSON.quote_chars s ++ 34 :: 44 :: rest)).
  rewrite parse_value_string. cbn [JSON.skip_ws].
  change (JSON.is_ws 44) with false. cbv iota.
  change (44 =? 44) with true. cbv iota. reflexivity.
Qed.

(** The last member of an array element, followed by the closing brace. *)
Lemma parse_member_last (n : nat) (acc : list (jsstring * json)) (k s rest : jsstring) :
  JSON.parse_members (S (S n)) acc
    (10 :: 32 :: 32 :: 32 :: 32 :: 34 :: JSON.quote_chars k ++ 34 :: 58 :: 32
       :: 34 :: JSON.quote_chars s ++ 34 :: 10 :: 32 :: 32 :: 125 :: rest)
  = Some (JSON.obj_set k (JString s) acc, rest).
Proof.
  cbn [JSON.parse_members JSON.skip_ws].
  change (JSON.is_ws 10) with true. change (JSON.is_ws 32) with true.
  change (JSON.is_ws 34) with false. cbv iota.
  change (34 =? 34) with true. cbv iota.
  rewrite parse_chars_quote_chars. cbn [JSON.skip_ws].
  change (JSON.is_ws 58) with false. cbv iota.
  change (58 =? 58) with true. cbv iota.
  change (JSON.parse_value (S n) (32 :: 34 :: JSON.quote_chars s ++ 34 :: 10 :: 32 :: 32 :: 125 :: rest))
    with (JSON.parse_value (S n) (34 :: JSON.quote_chars s ++ 34 :: 10 :: 32 :: 32 :: 125 :: rest)).
  rewrite parse_value_string. cbn [JSON.skip_ws].
  change (JSON.is_ws 10) with true. change (JSON.is_ws 32) with true.
  change (JSON.is_ws 125) with false. cbv iota.
  change (125 =? 44) with false. change (125 =? 125) with true. cbv iota. reflexivity.
Qed.

(** The text of one artifact inside the exported array. *)
Lemma serialize_file (f : GeneratedFile) (rest : jsstring) :
  JSON.serialize gap2 gap2 (file_json f) ++ rest =
  123 :: 10 :: 32 :: 32 :: 32 :: 32 :: 34 :: JSON.quote_chars (str "name") ++ 34 :: 58 :: 32
    :: 34 :: JSON.quote_chars (name f) ++ 34 :: 44
    :: 10 :: 32 :: 32 :: 32 :: 32 :: 34 :: JSON.quote_chars (str "content") ++ 34 :: 58 :: 32
    :: 34 :: JSON.quote_chars (content f) ++ 34 :: 44
    :: 10 :: 32 :: 32 :: 32 :: 32 :: 34 :: JSON.quote_chars (str "language") ++ 34 :: 58 :: 32
    :: 34 :: JSON.quote_chars (language f) ++ 34 :: 10 :: 32 :: 32 :: 125 :: rest.
Proof.
  unfold file_json, gap2, JSON.quote.
  cbn [JSON.serialize map join app fst snd JSON.quote].
  unfold JSON.quote.
  repeat (rewrite <- ?app_assoc, <- ?app_comm_cons; cbn [app]).
  reflexivity.
Qed.

Lemma parse_file (n : nat) (f : GeneratedFile) (rest : jsstring) :
  JSON.parse_value (5 + n) (JSON.serialize gap2 gap2 (file_json f) ++ rest)
  = Some (file_json f, rest).
Proof.
  rewrite serialize_file.
  cbn [Nat.add JSON.parse_value JSON.skip_ws].
  change (JSON.is_ws 123) with false. cbv iota.
  change (123 =? 34) with false. change (123 =? 91) with false.
  change (123 =? 123) with true. cbv iota.
  change (JSON.is_ws 10) with true. change (JSON.is_ws 32) with true.
  change (JSON.is_ws 34) with false. cbv iota.
  change (34 =? 125) with false. cbv iota.
  rewrite parse_member_comma, parse_member_comma, parse_member_last.
  reflexivity.
Qed.


Lemma parse_elements_indented (n : nat) (t : jsstring) :
  JSON.parse_elements n (10 :: 32 :: 32 :: t) = JSON.parse_elements n t.
Proof.
  destruct n as [|[|n]]; reflexivity.
Qed.

Lemma parse_elements_files (fs : list GeneratedFile) (f : GeneratedFile)
  (n : nat) (rest : jsstring) :
  JSON.parse_elements (6 + List.length fs + n)
    (join element_sep (map (JSON.serialize gap2 gap2) (map file_json (f :: fs)))
       ++ 10 :: 93 :: rest)
  = Some (map file_json (f :: fs), rest).
Proof.
  revert f n. induction fs as [|g fs IH]; intros f n.
  - cbn [map join List.length Nat.add JSON.parse_elements].
    rewrite (parse_file n). cbn [JSON.skip_ws].
    change (JSON.is_ws 10) with true. change (JSON.is_ws 93) with false. cbv iota.
    change (93 =? 44) with false. change (93 =? 93) with true. reflexivity.
  - change (join element_sep (map (JSON.serialize gap2 gap2) (map file_json (f :: g :: fs))))
      with (JSON.serialize gap2 gap2 (file_json f) ++ element_sep
              ++ join element_sep (map (JSON.serialize gap2 gap2) (map file_json (g :: fs)))).
    rewrite <- !app_assoc.
    change (6 + List.length (g :: fs) + n)%nat
      with (S (5 + (1 + List.length fs + n)))%nat.
    cbn [JSON.parse_elements].
    rewrite (parse_file (1 + List.length fs + n)).
    unfold element_sep at 1. cbn [app JSON.skip_ws].
    change (JSON.is_ws 44) with false. cbv iota.
    change (44 =? 44) with true. cbv iota.
    rewrite parse_elements_indented.
    change (5 + (1 + List.length fs + n))%nat with (6 + List.length fs + n)%nat.
    rewrite IH. reflexivity.
Qed.

Lemma stringify_files_cons (f : GeneratedFile) (fs : list GeneratedFile) :
  JSON.stringify (files_json (f :: fs)) 2 =
  91 :: 10 :: 32 :: 32
    :: join element_sep (map (JSON.serialize gap2 gap2) (map file_json (f :: fs)))
    ++ 10 :: 93 :: [].
Proof. reflexivity. Qed.

Lemma length_join_files (fs : list GeneratedFile) :
  (List.length fs <=
   List.length (join element_sep (map (JSON.serialize gap2 gap2) (map file_json fs))))%nat.
Proof.
  induction fs as [|f [|g fs] IH].
  - simpl. lia.
  - simpl. lia.
  - change (join element_sep (map (JSON.serialize gap2 gap2) (map file_json (f :: g :: fs))))
      with (JSON.serialize gap2 gap2 (file_json f) ++ element_sep
              ++ join element_sep (map (JSON.serialize gap2 gap2) (map file_json (g :: fs)))).
    rewrite !length_app. simpl List.length in *. lia.
Qed.

Lemma join_files_head (f : GeneratedFile) (fs : list GeneratedFile) (rest : jsstring) :
  exists tail : jsstring,
    join element_sep (map (JSON.serialize gap2 gap2) (map file_json (f :: fs))) ++ rest
    = 123 :: tail.
Proof.
  destruct fs as [|g fs].
  - cbn [map join]. rewrite serialize_file. eexists. reflexivity.
  - change (join element_sep (map (JSON.serialize gap2 gap2) (map file_json (f :: g :: fs))))
      with (JSON.serialize gap2 gap2 (file_json f) ++ element_sep
              ++ join element_sep (map (JSON.serialize gap2 gap2) (map file_json (g :: fs)))).
    rewrite <- app_assoc, serialize_file. eexists. reflexivity.
Qed.

Lemma parse_stringify_files (fs : list GeneratedFile) :
  JSON.parse (JSON.stringify (files_json fs) 2) = Some (files_json fs).
Proof.
  destruct fs as [|f fs]; [reflexivity|].
  unfold JSON.parse.
  assert (H : JSON.parse_value (JSON.fuel_for (JSON.stringify (files_json (f :: fs)) 2))
                (JSON.stringify (files_json (f :: fs)) 2)
              = Some (files_json (f :: fs), [])).
  { apply (proj1 (parse_fuel_mono (7 + List.length fs + 0))).
    - unfold JSON.fuel_for. rewrite stringify_files_cons.
      pose proof (length_join_files (f :: fs)) as Hlen.
      cbn [List.length] in *. rewrite length_app. lia.
    - rewrite stringify_files_cons.
      cbn [Nat.add JSON.parse_value JSON.skip_ws].
      change (JSON.is_ws 91) with false. cbv iota.
      change (91 =? 34) with false. change (91 =? 91) with true. cbv iota.
      change (JSON.is_ws 10) with true. change (JSON.is_ws 32) with true. cbv iota.
      set (body := join element_sep _ ++ _).
      destruct (join_files_head f fs [10; 93]) as [tail Ht]. fold body in Ht.
      assert (Hskip : JSON.skip_ws body = 123 :: tail) by (rewrite Ht; reflexivity).
      change (JSON.skip_ws (10 :: 32 :: 32 :: body)) with (JSON.skip_ws body).
      rewrite Hskip. change (123 =? 93) with false. cbv iota.
      rewrite parse_elements_indented. unfold body.
      pose proof (parse_elements_files fs f 0 []) as He. cbn [Nat.add] in He.
      rewrite He. reflexivity. }
  rewrite H. reflexivity.
Qed.

(** *** The text of the blob *)
Lemma usv_plain (c : N) (r : jsstring) :
  c < 55296 -> toUSVString (c :: r) = c :: toUSVString r.
Proof.
  intros Hc. cbn [toUSVString].
  replace (JSON.is_high c) with false
    by (symmetry; unfold JSON.is_high; apply andb_false_iff; left; apply N.leb_gt; lia).
  replace (JSON.is_low c) with false
    by (symmetry; unfold JSON.is_low; apply andb_false_iff; left; apply N.leb_gt; lia).
  reflexivity.
Qed.

Lemma hex_digit_plain (n : N) : JSON.hex_digit (n mod 16) < 55296.
Proof.
  pose proof (N.mod_lt n 16) as H. unfold JSON.hex_digit.
  destruct (n mod 16 <? 10); lia.
Qed.

Lemma usv_unicode_escape (c : N) (r : jsstring) :
  toUSVString (JSON.unicode_escape c ++ r) = JSON.unicode_escape c ++ toUSVString r.
Proof.
  unfold JSON.unicode_escape. cbn [app].
  rewrite (usv_plain 92), (usv_plain 117) by lia.
  rewrite !usv_plain by apply hex_digit_plain. reflexivity.
Qed.

Lemma usv_escape_unit (c : N) (r : jsstring) :
  JSON.is_high c = false ->
  toUSVString (JSON.escape_unit c ++ r) = JSON.escape_unit c ++ toUSVString r.
Proof.
  intros Hh. unfold JSON.escape_unit.
  repeat match goal with
         | |- context [if ?c =? ?k then _ else _] =>
           destruct (c =? k); [cbn [app]; rewrite !usv_plain by lia; reflexivity|]
         end.
  rewrite Hh, orb_false_r.
  destruct ((c <? 32) || JSON.is_low c) eqn:E.
  - apply usv_unicode_escape.
  - apply orb_false_iff in E as [_ Hl]. cbn [app toUSVString].
    rewrite Hh, Hl. reflexivity.
Qed.

Lemma usv_quote_chars (s rest : jsstring) :
  toUSVString (JSON.quote_chars s ++ rest) = JSON.quote_chars s ++ toUSVString rest.
Proof.
  remember (List.length s) as n eqn:Hn.
  assert (Hle : (List.length s <= n)%nat) by lia. clear Hn.
  revert s Hle. induction n as [|n IH]; intros s Hle.
  - destruct s; [reflexivity | simpl in Hle; lia].
  - destruct s as [|c r]; [reflexivity|]. simpl in Hle.
    cbn [JSON.quote_chars].
    destruct (JSON.is_high c) eqn:Hh.
    + destruct r as [|d r'].
      * apply usv_unicode_escape.
      * destruct (JSON.is_low d) eqn:Hl.
        -- cbn [app toUSVString]. rewrite Hh, Hl.
           rewrite IH by (simpl in Hle; lia). reflexivity.
        -- rewrite <- !app_assoc, usv_unicode_escape.
           rewrite IH by lia. reflexivity.
    + rewrite <- !app_assoc, usv_escape_unit by exact Hh.
      rewrite IH by lia. reflexivity.
Qed.

Ltac usv_step :=
  first [ rewrite usv_quote_chars
        | rewrite usv_plain by lia ].

Lemma usv_file (f : GeneratedFile) (rest : jsstring) :
  toUSVString (JSON.serialize gap2 gap2 (file_json f) ++ rest)
  = JSON.serialize gap2 gap2 (file_json f) ++ toUSVString rest.
Proof.
  rewrite !serialize_file. repeat usv_step. reflexivity.
Qed.

Lemma usv_join_files (fs : list GeneratedFile) (rest : jsstring) :
  toUSVString (join element_sep (map (JSON.serialize gap2 gap2) (map file_json fs)) ++ rest)
  = join element_sep (map (JSON.serialize gap2 gap2) (map file_json fs)) ++ toUSVString rest.
Proof.
  induction fs as [|f [|g fs] IH].
  - reflexivity.
  - cbn [map join]. apply usv_file.
  - change (join element_sep (map (JSON.serialize gap2 gap2) (map file_json (f :: g :: fs))))
      with (JSON.serialize gap2 gap2 (file_json f) ++ element_sep
              ++ join element_sep (map (JSON.serialize gap2 gap2) (map file_json (g :: fs)))).
    rewrite <- !app_assoc, usv_file. unfold element_sep at 1 3. cbn [app].
    rewrite !usv_plain by lia. rewrite IH. reflexivity.
Qed.

Lemma usv_stringify_files (fs : list GeneratedFile) :
  toUSVString (JSON.stringify (files_json fs) 2) = JSON.stringify (files_json fs) 2.
Proof.
  destruct fs as [|f fs]; [reflexivity|].
  rewrite stringify_files_cons. rewrite !usv_plain by lia.
  rewrite usv_join_files. reflexivity.
Qed.

Lemma as_files_files_json (fs : list GeneratedFile) : as_files (files_json fs) = Some fs.
Proof.
  unfold as_files, files_json. induction fs as [|f fs IH]; [reflexivity|].
  cbn [map all_files]. rewrite IH. destruct f. reflexivity.
Qed.

End JSONFacts.

(** ** Running the combinators *)

Section Run.

Variable env : Env.

Lemma run_bind {A B : Type} (p : proc A) (f : A -> proc B) (w : World) :
  run env (bind p f) w =
  match run env p w with
  | (Fulfilled a, w') => run env (f a) w'
  | (Rejected e, w') => (Rejected e, w')
  end.
Proof.
  revert w. induction p as [a|e|X e k IH]; intros w; simpl; try reflexivity.
  destruct (perform env e w) as [x w']. apply IH.
Qed.

Lemma run_try_catch {A : Type} (p : proc A) (h : exn -> proc A) (w : World) :
  run env (try_catch p h) w =
  match run env p w with
  | (Fulfilled a, w') => (Fulfilled a, w')
  | (Rejected e, w') => run env (h e) w'
  end.
Proof.
  revert w. induction p as [a|e|X e k IH]; intros w; simpl; try reflexivity.
  destruct (perform env e w) as [x w']. apply IH.
Qed.

Lemma run_try_finally {A : Type} (p : proc A) (fin : proc unit) (w : World) :
  run env (try_finally p fin) w =
  match run env p w with
  | (Fulfilled a, w') =>
    match run env fin w' with
    | (Fulfilled _, w'') => (Fulfilled a, w'')
    | (Rejected e, w'') => (Rejected e, w'')
    end
  | (Rejected e, w') =>
    match run env fin w' with
    | (Fulfilled _, w'') => (Rejected e, w'')
    | (Rejected e', w'') => (Rejected e', w'')
    end
  end.
Proof.
  revert w. induction p as [a|e|X e k IH]; intros w; simpl.
  - rewrite run_bind. destruct (run env fin w) as [[u|e] w']; reflexivity.
  - rewrite run_bind. destruct (run env fin w) as [[u|e'] w']; reflexivity.
  - destruct (perform env e w) as [x w']. apply IH.
Qed.

Lemma run_addLog (m : jsstring) (t : LogType) (w : World) :
  run env (addLog m t) w = (Fulfilled tt, logged env m t w).
Proof.
  unfold addLog, logged, log_line. simpl. unfold write. simpl.
  rewrite <- app_assoc. reflexivity.
Qed.

Lemma run_trigger {X : Type} (e : eff X) (w : World) :
  run env (trigger e) w = (Fulfilled (fst (perform env e w)), snd (perform env e w)).
Proof. unfold trigger. simpl. destruct (perform env e w). reflexivity. Qed.



(** *** [generateISOBlueprint], case by case *)

Lemma run_generateISOBlueprint (config : ISOConfig) (w : World) :
  run env (generateISOBlueprint config) w =
  match settled env config with
  | inl e => (Rejected e, called w)
  | inr response =>
    match JSON.parse (text_or_default (text response)) with
    | Some v => (Fulfilled v, called w)
    | None => (Fulfilled (JArray []), parse_failed w)
    end
  end.
Proof.
  unfold generateISOBlueprint, getAI, await. simpl.
  fold (client env). fold (settled env config).
  destruct (settled env config) as [e|response]; simpl.
  - reflexivity.
  - unfold JSON_parse.
    destruct (JSON.parse (text_or_default (text response))) as [v|]; simpl.
    + reflexivity.
    + unfold parse_failed, note. simpl. rewrite <- !app_assoc. reflexivity.
Qed.

End Run.

Lemma parse_empty_text : JSON.parse [] = None.
Proof. reflexivity. Qed.

Lemma parse_default_text : JSON.parse (str "[]") = Some (JArray []).
Proof. reflexivity. Qed.

Lemma text_or_default_valid (t : jsstring) (v : json) :
  JSON.parse t = Some v -> text_or_default (Some t) = t.
Proof.
  destruct t as [|c r]; [rewrite parse_empty_text; discriminate | reflexivity].
Qed.

(** ** The service operation *)

Lemma returns_parsed_value (env : Env) (config : ISOConfig) (w : World)
  (response : Response) (t : jsstring) (v : json) :
  settled env config = inr response ->
  text response = Some t ->
  JSON.parse t = Some v ->
  run env (generateISOBlueprint config) w = (Fulfilled v, called w).
Proof.
  intros Hcall Htext Hparse.
  rewrite run_generateISOBlueprint, Hcall, Htext.
  rewrite (text_or_default_valid t v Hparse), Hparse. reflexivity.
Qed.

(** C10. When the call succeeds and the response has no text, or the
    empty text, the text parsed is the default ['[]']: the operation
    returns the empty list, writes nothing to the console and throws
    nothing. *)
Theorem missing_text_gives_empty_list (env : Env) (config : ISOConfig)
  (w : World) (response : Response) :
  settled env config = inr response ->
  text response = None \/ text response = Some [] ->
  text_or_default (text response) = str "[]"
  /\ run env (generateISOBlueprint config) w = (Fulfilled (JArray []), called w)
  /\ console (called w) = console w.
Proof.
  intros Hcall Htext.
  assert (Hdefault : text_or_default (text response) = str "[]")
    by (destruct Htext as [-> | ->]; reflexivity).
  split; [exact Hdefault|]. split; [|reflexivity].
  rewrite run_generateISOBlueprint, Hcall, Hdefault, parse_default_text.
  reflexivity.
Qed.

(** C9. Whatever valid JSON the response text holds, the value parsed is
    returned as it is, with no check of its shape; and there is such a
    text whose value is neither a list of artifacts nor the empty list. *)
Theorem parsed_value_returned_unchecked :
  (forall (env : Env) (config : ISOConfig) (w : World) (response : Response)
          (t : jsstring) (v : json),
      settled env config = inr response ->
      text response = Some t ->
      JSON.parse t = Some v ->
      run env (generateISOBlueprint config) w = (Fulfilled v, called w))
  /\ (exists (t : jsstring) (v : json),
        JSON.parse t = Some v /\ as_files v = None /\ v <> JArray []).
Proof.
  split.
  - intros env config w response t v. apply returns_parsed_value.
  - exists (json_text "{'name':'x'}"), (JObject [(str "name", JString (str "x"))]).
    split; [reflexivity|]. split; [reflexivity | discriminate].
Qed.

(** ** The handlers of the page *)

Lemma run_handleGenerate (env : Env) (rendered : AppState) (w : World) :
  run env (handleGenerate rendered) w =
  (Fulfilled tt,
   match settled env (config rendered) with
   | inl e => failed env e (called (started env rendered w))
   | inr response =>
     match JSON.parse (text_or_default (text response)) with
     | Some v => completed env v (called (started env rendered w))
     | None => completed env (JArray []) (parse_failed (started env rendered w))
     end
   end).
Proof.
  unfold handleGenerate, sleep.
  repeat (rewrite run_bind; first [rewrite run_trigger | rewrite run_addLog];
          cbn [perform fst snd]).
  rewrite run_try_finally, run_try_catch, run_bind, run_addLog, run_bind.
  rewrite run_generateISOBlueprint. fold (started env rendered w).
  set (w0 := started env rendered w).
  destruct (settled env (config rendered)) as [e|response].
  - rewrite run_addLog, run_trigger. reflexivity.
  - destruct (JSON.parse (text_or_default (text response))) as [v|];
      repeat (first [rewrite run_bind | rewrite run_addLog | rewrite run_trigger];
              cbn [perform fst snd]);
      reflexivity.
Qed.

Lemma run_loadTemplate (env : Env) (t : ISOConfig) (w : World) :
  run env (loadTemplate t) w = (Fulfilled tt, template_loaded env t w).
Proof.
  unfold loadTemplate.
  repeat (rewrite run_bind; rewrite run_trigger; cbn [perform fst snd]).
  rewrite run_addLog. reflexivity.
Qed.

Lemma packages_add_package (env : Env) (s : System) (pkg : jsstring) :
  packages_of (add_package env s pkg) =
  if truthy pkg && negb (includes (packages_of s) pkg)
  then packages_of s ++ [pkg]
  else packages_of s.
Proof.
  unfold add_package, packages_of, step, spawn, addPackage. simpl.
  destruct (truthy pkg && negb (includes (packages (config (state (world s)))) pkg));
    reflexivity.
Qed.

Lemma NoDup_snoc (l : list jsstring) (x : jsstring) :
  NoDup l -> ~ In x l -> NoDup (l ++ [x]).
Proof.
  intros Hl Hx. induction Hl as [|y l Hy Hl IH]; simpl.
  - constructor; [intros [] | constructor].
  - constructor.
    + rewrite in_app_iff. intros [H|[H|[]]]; [exact (Hy H) |].
      subst. apply Hx. left. reflexivity.
    + apply IH. intros H. apply Hx. right. exact H.
Qed.

Lemma add_package_NoDup (env : Env) (s : System) (pkg : jsstring) :
  NoDup (packages_of s) -> NoDup (packages_of (add_package env s pkg)).
Proof.
  intros Hs. rewrite packages_add_package.
  destruct (truthy pkg); simpl; [|exact Hs].
  destruct (includes (packages_of s) pkg) eqn:Hin; simpl; [exact Hs|].
  apply NoDup_snoc; [exact Hs | apply includes_not_In; exact Hin].
Qed.

(** C1. A response text that is a JSON array of one or more objects with
    the three fields is returned as the array that was parsed: the same
    elements, as many, in the same order; and that array is what the
    page holds as its artifact list after the invocation. *)
Theorem valid_array_returned_in_order (env : Env) (rendered : AppState)
  (w : World) (response : Response) (t : jsstring) (objs : list json) :
  settled env (config rendered) = inr response ->
  text response = Some t ->
  JSON.parse t = Some (JArray objs) ->
  1 <= List.length objs ->
  forallb carries_fields objs = true ->
  exists returned : list json,
    fst (run env (generateISOBlueprint (config rendered)) w) = Fulfilled (JArray returned)
    /\ returned = objs
    /\ List.length returned = List.length objs
    /\ generatedFiles (state (snd (run env (handleGenerate rendered) w))) = JArray objs.
Proof.
  intros Hcall Htext Hparse _ _. exists objs.
  rewrite (returns_parsed_value env (config rendered) w response t (JArray objs)
             Hcall Htext Hparse).
  repeat split.
  rewrite run_handleGenerate, Hcall, Htext.
  rewrite (text_or_default_valid t (JArray objs) Hparse), Hparse. reflexivity.
Qed.

(** C4. Package-add operations keep the package list free of
    duplicates, whatever names are added and in whatever order, and
    adding a name that is already listed leaves the list as it is. *)
Theorem packages_stay_unique (env : Env) (s : System) (names : list jsstring) :
  NoDup (packages_of s) ->
  NoDup (packages_of (fold_left (add_package env) names s))
  /\ (forall pkg : jsstring,
        In pkg (packages_of s) ->
        packages_of (add_package env s pkg) = packages_of s).
Proof.
  intros Hs. split.
  - revert s Hs. induction names as [|pkg names IH]; intros s Hs; simpl.
    + exact Hs.
    + apply IH. apply add_package_NoDup. exact Hs.
  - intros pkg Hin. rewrite packages_add_package.
    apply includes_In in Hin. rewrite Hin, andb_false_r. reflexivity.
Qed.

(** C5, as the code has it. Loading a template makes the configuration
    the template's, empties the artifact list, and resets the log to the
    single line that announces the template; the other cells keep their
    values. *)
Theorem loadTemplate_resets (env : Env) (t : ISOConfig) (w : World) :
  let w' := snd (run env (loadTemplate t) w) in
  config (state w') = t
  /\ generatedFiles (state w') = JArray []
  /\ logs (state w') =
       [log_line env (clock_reads w)
          (str "Loaded " ++ OS_value (os t) ++ str " template configuration.") info]
  /\ newPackage (state w') = newPackage (state w)
  /\ isGenerating (state w') = isGenerating (state w)
  /\ activeStep (state w') = activeStep (state w).
Proof.
  rewrite run_loadTemplate. simpl. repeat split; reflexivity.
Qed.

(** C5 fails as stated: after a template is loaded the log is not empty. *)
Lemma loadTemplate_log_not_empty :
  exists t : ISOConfig,
    nth_error TEMPLATES 0 = Some t
    /\ logs (state (snd (run (env_replying (inl (Error [])))
                          (loadTemplate t) (new_world initial_state)))) <> [].
Proof.
  eexists. split; [reflexivity|]. rewrite run_loadTemplate. simpl. discriminate.
Qed.

(** C2, as the code has it. A response text that is not JSON is caught:
    the operation writes to the console and returns the empty list.
    An exception of the outbound call is not caught: it reaches the
    caller as the rejection of the operation. *)
Theorem failures_of_generateISOBlueprint (env : Env) (config : ISOConfig) (w : World) :
  (forall response : Response,
      settled env config = inr response ->
      JSON.parse (text_or_default (text response)) = None ->
      run env (generateISOBlueprint config) w = (Fulfilled (JArray []), parse_failed w))
  /\ (forall e : exn,
        settled env config = inl e ->
        run env (generateISOBlueprint config) w = (Rejected e, called w)).
Proof.
  split.
  - intros response Hcall Hparse.
    rewrite run_generateISOBlueprint, Hcall, Hparse. reflexivity.
  - intros e Hcall. rewrite run_generateISOBlueprint, Hcall. reflexivity.
Qed.

(** C2 fails as stated: when the outbound call throws, the operation
    does not return the empty list, it rejects with what was thrown. *)
Lemma call_exception_propagates :
  let env := env_replying (inl (Error (str "quota exceeded"))) in
  let result := fst (run env (generateISOBlueprint (config initial_state))
                       (new_world initial_state)) in
  result = Rejected (Error (str "quota exceeded"))
  /\ result <> Fulfilled (JArray []).
Proof.
  intros env result. unfold result. rewrite run_generateISOBlueprint. simpl.
  split; [reflexivity | discriminate].
Qed.

(** C3, as the code has it. A generation invocation never throws and
    always lowers the flag again.  When the response text is not JSON
    the artifact list is empty and no error-severity line is logged
    (the failure goes to the console only); when the text is JSON it is
    stored as the artifact list without a check against the schema;
    exactly one error-severity line is logged, with the artifact list
    empty, when the outbound call itself throws. *)
Theorem generation_outcome (env : Env) (rendered : AppState) (w : World) :
  let result := run env (handleGenerate rendered) w in
  let final := state (snd result) in
  fst result = Fulfilled tt
  /\ isGenerating final = false
  /\ match settled env (config rendered) with
     | inl e =>
       generatedFiles final = JArray []
       /\ error_entries (logs final) =
            [log_line env (3 + clock_reads w)
               (str "Architectural failure: " ++ exn_message e) error]
     | inr response =>
       match JSON.parse (text_or_default (text response)) with
       | None =>
         generatedFiles final = JArray [] /\ error_entries (logs final) = []
       | Some v =>
         generatedFiles final = v /\ error_entries (logs final) = []
       end
     end.
Proof.
  intros result final. unfold final, result. rewrite run_handleGenerate.
  split; [reflexivity|].
  destruct (settled env (config rendered)) as [e|response].
  - simpl. repeat split; reflexivity.
  - destruct (JSON.parse (text_or_default (text response))) as [v|];
      simpl; repeat split; reflexivity.
Qed.

(** C3 fails as stated: a response text that is not JSON leaves no
    error-severity line in the log, and a JSON text of the wrong shape
    leaves a non-empty artifact value. *)
Lemma malformed_response_logs_no_error :
  let final (t : string) :=
    state (snd (run (env_replying (inr {| text := Some (json_text t) |}))
                  (handleGenerate initial_state) (new_world initial_state))) in
  JSON.parse (json_text "not json") = None
  /\ List.length (error_entries (logs (final "not json"%string))) <> 1
  /\ JSON.parse (json_text "{'files':[]}") = Some (JObject [(str "files", JArray [])])
  /\ generatedFiles (final "{'files':[]}"%string) <> JArray [].
Proof.
  intros final. unfold final. split; [reflexivity|].
  rewrite !run_handleGenerate.
  split; [vm_compute; discriminate|]. split; [reflexivity|].
  vm_compute. discriminate.
Qed.

(** ** Suspension points *)

Lemma history_completed (env : Env) (v : json) (w : World) :
  history (completed env v w) = history w ++ success_path.
Proof. unfold completed. simpl. repeat rewrite <- app_assoc. reflexivity. Qed.

Lemma history_failed (env : Env) (e : exn) (w : World) :
  history (failed env e w) = history w ++ failure_path.
Proof. unfold failed. simpl. repeat rewrite <- app_assoc. reflexivity. Qed.

Lemma history_called_started (env : Env) (rendered : AppState) (w : World) :
  history (called (started env rendered w))
  = history w ++ resets_before_call ++ [LCall].
Proof.
  unfold called, started. simpl. repeat rewrite <- app_assoc. reflexivity.
Qed.

Lemma history_parse_failed_started (env : Env) (rendered : AppState) (w : World) :
  history (parse_failed (started env rendered w))
  = history w ++ resets_before_call ++ [LCall; LConsole].
Proof.
  unfold parse_failed, started. simpl. repeat rewrite <- app_assoc. reflexivity.
Qed.

(** C7, as the code has it. In the service operation the outbound call
    is the only suspension point and no state is written.  In the
    handler the call is the first suspension point: the flag, the
    artifact list and the log are written before the call is issued, the
    three timers are awaited after it unless it threw, and the artifact
    list receives the result after the last timer. *)
Theorem suspension_points_of_generation (env : Env) (rendered : AppState) (w : World) :
  let inner := history (snd (run env (generateISOBlueprint (config rendered)) w)) in
  let outer := history (snd (run env (handleGenerate rendered) w)) in
  (exists tail : list label,
      inner = history w ++ LEnv :: LCall :: tail
      /\ suspension_points tail = [] /\ filter is_write tail = [])
  /\ (exists tail : list label,
        outer = history w ++ resets_before_call ++ LCall :: tail
        /\ (tail = failure_path \/ tail = success_path \/ tail = LConsole :: success_path)
        /\ (tail = failure_path <-> exists e, settled env (config rendered) = inl e)).
Proof.
  intros inner outer. unfold inner, outer. split.
  - rewrite run_generateISOBlueprint.
    destruct (settled env (config rendered)) as [e|response].
    + exists []. simpl. rewrite <- app_assoc. auto.
    + destruct (JSON.parse (text_or_default (text response))) as [v|].
      * exists []. simpl. rewrite <- app_assoc. auto.
      * exists [LConsole]. simpl. auto.
  - rewrite run_handleGenerate.
    destruct (settled env (config rendered)) as [e|response].
    + exists failure_path. cbn [snd].
      rewrite history_failed, history_called_started, <- !app_assoc.
      split; [reflexivity|]. split; [auto|]. split; [eauto | reflexivity].
    + destruct (JSON.parse (text_or_default (text response))) as [v|].
      * exists success_path. cbn [snd].
        rewrite history_completed, history_called_started, <- !app_assoc.
        split; [reflexivity|]. split; [auto|].
        split; [discriminate | intros [e He]; discriminate].
      * exists (LConsole :: success_path). cbn [snd].
        rewrite history_completed, history_parse_failed_started, <- !app_assoc.
        split; [reflexivity|]. split; [auto|].
        split; [discriminate | intros [e He]; discriminate].
Qed.

(** C7 fails as stated: with a well-formed response the handler is
    suspended four times, and six state writes precede the call. *)
Lemma generation_suspends_four_times :
  let h := history (snd (run
    (env_replying (inr {| text := Some (json_text "[{'name':'a','content':'b','language':'c'}]") |}))
    (handleGenerate initial_state) (new_world initial_state))) in
  suspension_points h = [LCall; LTimer 800; LTimer 600; LTimer 1000]
  /\ filter is_write (before_call h) =
       [LWrite CIsGenerating; LWrite CGeneratedFiles; LWrite CLogs;
        LWrite CLogs; LWrite CLogs; LWrite CLogs]
  /\ ~ (suspension_points h = [LCall] /\ filter is_write (before_call h) = []).
Proof.
  intros h. unfold h. rewrite run_handleGenerate.
  split; [vm_compute; reflexivity|]. split; [vm_compute; reflexivity|].
  vm_compute. intros [H _]. discriminate.
Qed.

(** ** One generation at a time *)

Section Flag.

Variable env : Env.

Lemma perform_keeps_flag {X : Type} (e : eff X) (w : World) :
  writes_flag e = false ->
  isGenerating (state (snd (perform env e w))) = isGenerating (state w).
Proof. destruct e; simpl; intros H; try reflexivity; discriminate. Qed.

Lemma tame_weaken {A : Type} (throws waits : bool) (p : proc A) :
  tame throws waits p -> tame true true p.
Proof.
  induction 1 as [a|e H|X e k Hf Hs Hk IH];
    constructor; auto.
Qed.

Lemma tame_bind {A B : Type} (throws waits : bool) (p : proc A) (f : A -> proc B) :
  tame throws waits p ->
  (forall a : A, tame throws waits (f a)) ->
  tame throws waits (bind p f).
Proof.
  intros Hp Hf.
  induction Hp as [a|e H|X e k Hfl Hs Hk IH]; simpl.
  - apply Hf.
  - constructor. exact H.
  - constructor; assumption.
Qed.

Lemma tame_try_catch {A : Type} (throws waits : bool) (p : proc A)
  (h : exn -> proc A) :
  tame true waits p ->
  (forall e : exn, tame throws waits (h e)) ->
  tame throws waits (try_catch p h).
Proof.
  intros Hp Hh.
  induction Hp as [a|e H|X e k Hfl Hs Hk IH]; simpl.
  - constructor.
  - apply Hh.
  - constructor; assumption.
Qed.

Lemma tame_trigger {X : Type} (throws waits : bool) (e : eff X) :
  writes_flag e = false ->
  (suspends e = true -> waits = true) ->
  tame throws waits (trigger e).
Proof. intros Hf Hs. constructor; [assumption | assumption | constructor]. Qed.

Lemma tame_addLog (throws waits : bool) (m : jsstring) (t : LogType) :
  tame throws waits (addLog m t).
Proof.
  unfold addLog. apply tame_bind.
  - apply tame_trigger; [reflexivity | discriminate].
  - intros ts. apply tame_trigger; [reflexivity | discriminate].
Qed.

Lemma tame_generateISOBlueprint (config : ISOConfig) :
  tame true true (generateISOBlueprint config).
Proof.
  unfold generateISOBlueprint, getAI, await. apply tame_bind.
  - apply tame_bind.
    + apply tame_trigger; [reflexivity | discriminate].
    + intros key. constructor.
  - intros ai. apply tame_bind.
    + apply tame_bind.
      * apply tame_trigger; [reflexivity | reflexivity].
      * intros [e|response]; constructor; reflexivity.
    + intros response. apply tame_try_catch.
      * unfold JSON_parse. destruct (JSON.parse _); constructor; reflexivity.
      * intros e. apply tame_bind.
        -- apply tame_trigger; [reflexivity | discriminate].
        -- intros _. constructor.
Qed.

Lemma releases_bind {A : Type} (p : proc A) (f : A -> proc unit) :
  tame false true p ->
  (forall a : A, releases (f a)) ->
  releases (bind p f).
Proof.
  intros Hp Hf.
  induction Hp as [a|e H|X e k Hfl Hs Hk IH]; simpl.
  - apply Hf.
  - discriminate.
  - apply releases_later; assumption.
Qed.

Lemma releases_try_finally (body : proc unit) :
  tame true true body ->
  releases (try_finally body (trigger (SetIsGenerating false))).
Proof.
  induction 1 as [a|e H|X e k Hfl Hs Hk IH]; simpl.
  - apply releases_now. intros x. exact I.
  - apply releases_now. intros x. exact I.
  - apply releases_later; assumption.
Qed.

(** After raising the flag, [handleGenerate] releases it at its end. *)
Lemma handleGenerate_shape (rendered : AppState) :
  exists rest : proc unit,
    handleGenerate rendered = Vis (SetIsGenerating true) (fun _ => rest)
    /\ releases rest.
Proof.
  eexists. split; [unfold handleGenerate, trigger at 1; cbn [bind]; reflexivity|].
  repeat (apply releases_bind;
          [first [apply tame_addLog | apply tame_trigger; [reflexivity | discriminate]]
          | intros _]).
  apply releases_try_finally.
  apply tame_try_catch; [|intros e; apply tame_addLog].
  apply tame_bind; [apply tame_addLog | intros _].
  apply tame_bind; [apply tame_generateISOBlueprint | intros files].
  unfold sleep.
  repeat (apply tame_bind;
          [first [apply tame_addLog
                 | apply tame_trigger; [reflexivity | first [discriminate | reflexivity]]]
          | intros _]).
  apply tame_trigger; [reflexivity | discriminate].
Qed.

(** Running a releasing procedure while the flag is up ends with the
    flag down, or parks it with the flag still up. *)
Lemma advance_releases (p : proc unit) (w : World) :
  releases p ->
  isGenerating (state w) = true ->
  match advance env p w with
  | (Done _, w') => isGenerating (state w') = false
  | (Waiting p', w') => isGenerating (state w') = true /\ parked p'
  end.
Proof.
  intros Hp. revert w.
  induction Hp as [k Hk|X e k Hf Hk IH]; intros w Hw; simpl.
  - specialize (Hk tt). destruct (k tt); simpl; [reflexivity | reflexivity | contradiction].
  - destruct (suspends e) eqn:Hs.
    + split; [exact Hw | constructor; assumption].
    + pose proof (perform_keeps_flag e w Hf) as Hkeep.
      destruct (perform env e w) as [x w']. simpl in Hkeep.
      apply IH. rewrite Hkeep. exact Hw.
Qed.

(** A handler that neither suspends nor writes the flag runs to its end
    and leaves the flag as it was. *)
Lemma advance_tame (throws : bool) (p : proc unit) (w : World) :
  tame throws false p ->
  exists (o : outcome unit) (w' : World),
    advance env p w = (Done o, w')
    /\ isGenerating (state w') = isGenerating (state w).
Proof.
  intros Hp. revert w.
  induction Hp as [a|e H|X e k Hf Hs Hk IH]; intros w; simpl.
  - eauto.
  - eauto.
  - destruct (suspends e) eqn:Hsusp; [specialize (Hs eq_refl); discriminate|].
    pose proof (perform_keeps_flag e w Hf) as Hkeep.
    destruct (perform env e w) as [x w']. simpl in Hkeep.
    destruct (IH x w') as (o & w'' & Hrun & Hflag).
    exists o, w''. split; [exact Hrun | congruence].
Qed.

Lemma spawn_tame (throws : bool) (p : proc unit) (s : System) :
  tame throws false p ->
  one_generation s -> one_generation (spawn env p s).
Proof.
  intros Hp Hs. unfold spawn.
  destruct (advance_tame throws p (world s) Hp) as (o & w' & -> & Hflag).
  unfold one_generation in *. simpl.
  destruct (pending s) as [|q [|q' l]]; [congruence | | exact Hs].
  destruct Hs as [Hup Hq]. split; [congruence | exact Hq].
Qed.

Lemma spawn_releases (p : proc unit) (w : World) :
  releases p ->
  isGenerating (state w) = true ->
  one_generation (spawn env p {| world := w; pending := [] |}).
Proof.
  intros Hp Hw. unfold spawn. simpl.
  pose proof (advance_releases p w Hp Hw) as H.
  destruct (advance env p w) as [[o|p'] w']; unfold one_generation; simpl; exact H.
Qed.

Lemma resume_one_generation (pick : proc unit -> option (proc unit)) (s : System) :
  (forall (X : Type) (e : eff X) (k : X -> proc unit) (q : proc unit),
      pick (Vis e k) = Some q -> exists x : X, q = k x) ->
  one_generation s -> one_generation (resume env pick s).
Proof.
  intros Hpick Hs. unfold resume.
  unfold one_generation in Hs.
  destruct (pending s) as [|p [|p' l]] eqn:Hpend; simpl.
  - unfold one_generation. rewrite Hpend. exact Hs.
  - destruct Hs as [Hup Hp]. destruct Hp as [X e k Hsusp Hk].
    destruct (pick (Vis e k)) as [q|] eqn:Hq.
    + destruct (Hpick X e k q Hq) as [x ->].
      apply spawn_releases; [apply Hk | exact Hup].
    + unfold one_generation. rewrite Hpend. split; [exact Hup | constructor; assumption].
  - contradiction.
Qed.

Lemma on_reply_resumes (r : exn + Response) (X : Type) (e : eff X)
  (k : X -> proc unit) (q : proc unit) :
  on_reply r (Vis e k) = Some q -> exists x : X, q = k x.
Proof.
  simpl. destruct e; try discriminate. intros H. injection H as <-. eauto.
Qed.

Lemma on_timer_resumes (X : Type) (e : eff X) (k : X -> proc unit) (q : proc unit) :
  on_timer (Vis e k) = Some q -> exists x : X, q = k x.
Proof.
  simpl. destruct e; try discriminate. intros H. injection H as <-. eauto.
Qed.

Lemma tame_setConfig_from (c : ISOConfig) : tame false false (setConfig_from c).
Proof. apply tame_trigger; [reflexivity | discriminate]. Qed.

Lemma tame_loadTemplate (t : ISOConfig) : tame false false (loadTemplate t).
Proof.
  unfold loadTemplate.
  repeat (apply tame_bind; [apply tame_trigger; [reflexivity | discriminate] | intros _]).
  apply tame_addLog.
Qed.

Lemma tame_addPackage (rendered : AppState) : tame false false (addPackage rendered).
Proof.
  unfold addPackage. destruct (_ && _); [|constructor].
  apply tame_bind; [|intros _]; apply tame_trigger; solve [reflexivity | discriminate].
Qed.

Lemma tame_removePackage (pkg : jsstring) : tame false false (removePackage pkg).
Proof. apply tame_trigger; [reflexivity | discriminate]. Qed.

Lemma tame_downloadAll (rendered : AppState) : tame false false (downloadAll rendered).
Proof.
  unfold downloadAll. apply tame_bind; [|intros _; apply tame_addLog].
  apply tame_trigger; [reflexivity | discriminate].
Qed.

Lemma step_one_generation (s : System) (ev : event) :
  one_generation s -> one_generation (step env s ev).
Proof.
  intros Hs. destruct ev; simpl;
    try (apply (spawn_tame false); [|exact Hs];
         first [apply tame_setConfig_from | apply tame_addPackage
               | apply tame_removePackage
               | apply tame_trigger; [reflexivity | discriminate]]).
  - destruct (nth_error TEMPLATES i) as [t|]; [|exact Hs].
    apply (spawn_tame false); [apply tame_loadTemplate | exact Hs].
  - destruct (isGenerating (state (world s))) eqn:Hflag; [exact Hs|].
    assert (Hidle : pending s = []).
    { unfold one_generation in Hs. destruct (pending s) as [|p [|p' l]];
        [reflexivity | destruct Hs; congruence | contradiction]. }
    destruct (handleGenerate_shape (state (world s))) as (rest & -> & Hrest).
    unfold spawn. simpl advance. rewrite Hidle.
    apply (spawn_releases rest _ Hrest). reflexivity.
  - destruct (length_positive _); [|exact Hs].
    apply (spawn_tame false); [apply tame_downloadAll | exact Hs].
  - apply resume_one_generation; [|exact Hs]. intros X e k q. apply on_reply_resumes.
  - apply resume_one_generation; [|exact Hs]. intros X e k q. apply on_timer_resumes.
Qed.

Lemma steps_one_generation (s : System) (evs : list event) :
  one_generation s -> one_generation (steps env s evs).
Proof.
  revert s. induction evs as [|ev evs IH]; intros s Hs; simpl.
  - exact Hs.
  - apply IH. apply step_one_generation. exact Hs.
Qed.

End Flag.

(** C6. In every execution of the page from its start, at most one
    request to the completion service is in flight; the page is in the
    generating state exactly while an invocation is outstanding, and in
    that state a click on the trigger changes nothing and issues
    nothing. *)
Theorem one_request_at_a_time (env : Env) (evs : list event) :
  let s := steps env boot evs in
  in_flight s <= 1
  /\ (isGenerating (state (world s)) = true <-> pending s <> [])
  /\ (pending s <> [] -> step env s ClickGenerate = s).
Proof.
  intros s.
  assert (Hs : one_generation s)
    by (apply steps_one_generation; reflexivity).
  unfold one_generation in Hs. unfold in_flight.
  destruct (pending s) as [|p [|p' l]] eqn:Hpend.
  - split; [simpl; lia|]. split; [|congruence].
    rewrite Hs. split; [discriminate | congruence].
  - destruct Hs as [Hup _]. split; [|split].
    + simpl. destruct (awaits_call p); simpl; lia.
    + split; [discriminate | intros _; exact Hup].
    + intros _. simpl. rewrite Hup. reflexivity.
  - contradiction.
Qed.

(** ** Export *)

Lemma run_downloadAll (env : Env) (rendered : AppState) (w : World) :
  run env (downloadAll rendered) w = (Fulfilled tt, downloaded env rendered w).
Proof.
  unfold downloadAll. rewrite run_bind, run_trigger. cbn [perform fst snd].
  rewrite run_addLog. reflexivity.
Qed.

Lemma exported_downloaded (env : Env) (rendered : AppState) (w : World) :
  exported (downloaded env rendered w) =
  Some (toUSVString (JSON.stringify (generatedFiles rendered) 2)).
Proof.
  unfold exported, downloaded, logged. cbn [downloads].
  rewrite rev_app_distr. reflexivity.
Qed.

(** C8. Whatever list of artifacts the page holds, the document that
    [downloadAll] exports parses back, with [JSON.parse], to the same
    sequence of records with the fields [name], [content] and
    [language]. *)
Theorem export_round_trip (env : Env) (rendered : AppState) (w : World)
  (fs : list GeneratedFile) :
  let holding := set_generatedFiles (files_json fs) rendered in
  exists document : jsstring,
    exported (snd (run env (downloadAll holding) w)) = Some document
    /\ JSON.parse document = Some (files_json fs)
    /\ as_files (files_json fs) = Some fs.
Proof.
  intros holding. rewrite run_downloadAll. cbn [snd].
  rewrite exported_downloaded. unfold holding. cbn [generatedFiles set_generatedFiles].
  eexists. split; [reflexivity|].
  rewrite usv_stringify_files. split.
  - apply parse_stringify_files.
  - apply as_files_files_json.
Qed.

(* ================================================================== *)
(** * The properties at sample inputs *)
(* ================================================================== *)

Lemma two_files_parse :
  JSON.parse two_files_text = Some (files_json [readme; build_script]).
Proof. vm_compute. reflexivity. Qed.

Lemma valid_array_returned_in_order_witness :
  let env := replying_text two_files_text in
  let objs := [file_json readme; file_json build_script] in
  (settled env (config initial_state) = inr {| text := Some two_files_text |}
   /\ JSON.parse two_files_text = Some (JArray objs)
   /\ 1 <= List.length objs
   /\ forallb carries_fields objs = true)
  /\ exists returned : list json,
      fst (run env (generateISOBlueprint (config initial_state))
             (new_world initial_state)) = Fulfilled (JArray returned)
      /\ returned = objs
      /\ List.length returned = List.length objs
      /\ generatedFiles (state (snd (run env (handleGenerate initial_state)
                                       (new_world initial_state)))) = JArray objs.
Proof.
  intros env objs.
  assert (Hparse : JSON.parse two_files_text = Some (JArray objs))
    by (vm_compute; reflexivity).
  assert (Hlen : 1 <= List.length objs) by (simpl; lia).
  assert (Hall : forallb carries_fields objs = true) by reflexivity.
  split; [repeat split; assumption|].
  exact (valid_array_returned_in_order env initial_state
           (new_world initial_state) {| text := Some two_files_text |}
           two_files_text objs eq_refl eq_refl Hparse Hlen Hall).
Defined.

(** Two artifacts of the same name, one with markup in its content: both
    are kept, as they were sent. *)
Example duplicate_names_kept :
  let t := json_text "[{'name':'a.sh','content':'<b>1</b>','language':'sh'},{'name':'a.sh','content':'2','language':'sh'}]" in
  fst (run (replying_text t) (generateISOBlueprint (config initial_state))
         (new_world initial_state))
  = Fulfilled (files_json
      [ {| name := str "a.sh"; content := str "<b>1</b>"; language := str "sh" |};
        {| name := str "a.sh"; content := str "2"; language := str "sh" |} ]).
Proof.
  intros t. rewrite run_generateISOBlueprint. vm_compute. reflexivity.
Qed.

Lemma failures_of_generateISOBlueprint_witness :
  let w := new_world initial_state in
  let c := config initial_state in
  (JSON.parse (str "I cannot help with that") = None
   /\ run (replying_text (str "I cannot help with that")) (generateISOBlueprint c) w
      = (Fulfilled (JArray []), parse_failed w))
  /\ run (env_replying (inl (Error (str "503")))) (generateISOBlueprint c) w
     = (Rejected (Error (str "503")), called w).
Proof.
  intros w c.
  assert (Hparse : JSON.parse (str "I cannot help with that") = None)
    by (vm_compute; reflexivity).
  split; [split; [exact Hparse|]|].
  - exact (proj1 (failures_of_generateISOBlueprint
                    (replying_text (str "I cannot help with that")) c w)
             {| text := Some (str "I cannot help with that") |} eq_refl Hparse).
  - exact (proj2 (failures_of_generateISOBlueprint
                    (env_replying (inl (Error (str "503")))) c w)
             (Error (str "503")) eq_refl).
Defined.

Lemma boot_packages_NoDup : NoDup (packages_of boot).
Proof.
  change (packages_of boot)
    with [str "vim"; str "curl"; str "docker.io"; str "git"].
  repeat constructor; simpl; intros H;
    repeat (destruct H as [H|H]; [vm_compute in H; discriminate H|]);
    exact H.
Defined.

Lemma packages_stay_unique_witness :
  let env := env_replying (inl (Error [])) in
  let names := [str "nginx"; str "vim"; []; str "nginx"] in
  NoDup (packages_of boot)
  /\ NoDup (packages_of (fold_left (add_package env) names boot))
  /\ packages_of (fold_left (add_package env) names boot)
     = [str "vim"; str "curl"; str "docker.io"; str "git"; str "nginx"]
  /\ packages_of (add_package env boot (str "curl")) = packages_of boot.
Proof.
  intros env names.
  pose proof (packages_stay_unique env boot names boot_packages_NoDup) as [Hnodup Hsame].
  split; [exact boot_packages_NoDup|]. split; [exact Hnodup|].
  split; [vm_compute; reflexivity|].
  apply Hsame. vm_compute. auto.
Defined.

Lemma one_request_at_a_time_witness :
  let env := replying_text two_files_text in
  let s := steps env boot [ClickGenerate] in
  pending s <> []
  /\ in_flight s <= 1
  /\ isGenerating (state (world s)) = true
  /\ step env s ClickGenerate = s.
Proof.
  intros env s.
  assert (Hlen : List.length (pending s) = 1) by reflexivity.
  assert (Hpending : pending s <> [])
    by (intros Hnil; rewrite Hnil in Hlen; discriminate Hlen).
  destruct (one_request_at_a_time env [ClickGenerate]) as (Hone & Hflag & Hignored).
  split; [exact Hpending|]. split; [exact Hone|].
  split; [exact (proj2 Hflag Hpending) | exact (Hignored Hpending)].
Defined.

Lemma suspension_points_of_generation_witness :
  let env := env_replying (inl (Error (str "503"))) in
  let w := new_world initial_state in
  history (snd (run env (handleGenerate initial_state) w))
  = resets_before_call ++ LCall :: failure_path.
Proof.
  intros env w.
  destruct (suspension_points_of_generation env initial_state w)
    as (_ & tail & Houter & _ & Hthrown).
  rewrite Houter.
  rewrite (proj2 Hthrown (ex_intro _ (Error (str "503")) eq_refl)).
  reflexivity.
Defined.

Lemma parsed_value_returned_unchecked_witness :
  let t := json_text "{'name':'x'}" in
  let v := JObject [(str "name", JString (str "x"))] in
  JSON.parse t = Some v
  /\ run (replying_text t) (generateISOBlueprint (config initial_state))
         (new_world initial_state)
     = (Fulfilled v, called (new_world initial_state)).
Proof.
  intros t v.
  assert (Hparse : JSON.parse t = Some v) by (vm_compute; reflexivity).
  split; [exact Hparse|].
  exact (proj1 parsed_value_returned_unchecked (replying_text t)
           (config initial_state) (new_world initial_state)
           {| text := Some t |} t v eq_refl eq_refl Hparse).
Defined.

Lemma missing_text_gives_empty_list_witness :
  let w := new_world initial_state in
  let c := config initial_state in
  run (env_replying (inr {| text := None |})) (generateISOBlueprint c) w
    = (Fulfilled (JArray []), called w)
  /\ run (env_replying (inr {| text := Some [] |})) (generateISOBlueprint c) w
     = (Fulfilled (JArray []), called w).
Proof.
  intros w c. split.
  - exact (proj1 (proj2 (missing_text_gives_empty_list
                           (env_replying (inr {| text := None |})) c w
                           {| text := None |} eq_refl (or_introl eq_refl)))).
  - exact (proj1 (proj2 (missing_text_gives_empty_list
                           (env_replying (inr {| text := Some [] |})) c w
                           {| text := Some [] |} eq_refl (or_intror eq_refl)))).
Defined.

(** The scenario of the specification: the Ubuntu server request and a
    response of four artifacts give a list of four, the page idle again
    and no error line. *)
Example four_artifacts_scenario :
  exists t : ISOConfig,
    nth_error TEMPLATES 0 = Some t
    /\ let rendered := set_config (fun _ => t) initial_state in
       let reply := json_text "[{'name':'README.md','content':'a','language':'markdown'},{'name':'user-data','content':'b','language':'yaml'},{'name':'build.sh','content':'c','language':'bash'},{'name':'grub.cfg','content':'d','language':'text'}]" in
       let final := state (snd (run (replying_text reply) (handleGenerate rendered)
                                   (new_world rendered))) in
       option_map (@List.length GeneratedFile) (as_files (generatedFiles final)) = Some 4
       /\ isGenerating final = false
       /\ error_entries (logs final) = [].
Proof.
  eexists. split; [reflexivity|]. vm_compute. repeat split; reflexivity.
Qed.

(** An exported bundle, parsed back. *)
Example export_two_files :
  let holding := set_generatedFiles (files_json [readme; build_script]) initial_state in
  let w := snd (run (env_replying (inl (Error []))) (downloadAll holding)
                  (new_world holding)) in
  option_map fst (hd_error (downloads w)) = Some (str "isoforge-ubuntu-config.json")
  /\ match exported w with
     | Some document => option_map as_files (JSON.parse document)
     | None => None
     end = Some (Some [readme; build_script]).
Proof. vm_compute. split; reflexivity. Qed.

(* ================================================================== *)
(** * Further properties of the page and of the service *)
(* ================================================================== *)

Section Keeps.

Variable env : Env.
Variable Inv : AppState -> Prop.

Lemma keeps_bind {A B : Type} (p : proc A) (f : A -> proc B) :
  keeps Inv p -> (forall a : A, keeps Inv (f a)) -> keeps Inv (bind p f).
Proof.
  intros Hp Hf. induction Hp as [a|e|X e k He Hk IH]; simpl.
  - apply Hf.
  - constructor.
  - constructor; assumption.
Qed.

Lemma keeps_try_catch {A : Type} (p : proc A) (h : exn -> proc A) :
  keeps Inv p -> (forall e : exn, keeps Inv (h e)) -> keeps Inv (try_catch p h).
Proof.
  intros Hp Hh. induction Hp as [a|e|X e k He Hk IH]; simpl.
  - constructor.
  - apply Hh.
  - constructor; assumption.
Qed.

Lemma keeps_try_finally {A : Type} (p : proc A) (fin : proc unit) :
  keeps Inv p -> keeps Inv fin -> keeps Inv (try_finally p fin).
Proof.
  intros Hp Hfin. induction Hp as [a|e|X e k He Hk IH]; simpl.
  - apply keeps_bind; [exact Hfin | intros _; constructor].
  - apply keeps_bind; [exact Hfin | intros _; constructor].
  - constructor; assumption.
Qed.

Lemma keeps_trigger {X : Type} (e : eff X) :
  preserves Inv e -> keeps Inv (trigger e).
Proof. intros He. constructor; [exact He | intros x; constructor]. Qed.

Lemma preserves_Now : preserves Inv Now.
Proof. intros env' w H. exact H. Qed.

Lemma preserves_SetTimeout (ms : nat) : preserves Inv (SetTimeout ms).
Proof. intros env' w H. exact H. Qed.

Hypothesis stable : generation_stable Inv.

Lemma keeps_addLog (m : jsstring) (t : LogType) : keeps Inv (addLog m t).
Proof.
  unfold addLog. apply keeps_bind.
  - apply keeps_trigger, preserves_Now.
  - intros ts. apply keeps_trigger. intros env' w H. simpl.
    apply (stable_logs Inv stable). exact H.
Qed.

Lemma keeps_generateISOBlueprint (config : ISOConfig) :
  keeps Inv (generateISOBlueprint config).
Proof.
  unfold generateISOBlueprint, getAI, await, JSON_parse.
  apply keeps_bind.
  - apply keeps_bind; [apply keeps_trigger; intros env' w H; exact H|].
    intros key. constructor.
  - intros ai. apply keeps_bind.
    + apply keeps_bind; [apply keeps_trigger; intros env' w H; exact H|].
      intros [e|response]; constructor.
    + intros response. apply keeps_try_catch.
      * destruct (JSON.parse _); constructor.
      * intros e. apply keeps_bind; [|intros _; constructor].
        apply keeps_trigger. intros env' w H. exact H.
Qed.

Lemma keeps_handleGenerate (rendered : AppState) :
  keeps Inv (handleGenerate rendered).
Proof.
  unfold handleGenerate, sleep.
  apply keeps_bind;
    [apply keeps_trigger; intros env' w H; simpl;
     apply (stable_isGenerating Inv stable); exact H | intros _].
  apply keeps_bind;
    [apply keeps_trigger; intros env' w H; simpl;
     apply (stable_generatedFiles Inv stable); exact H | intros _].
  apply keeps_bind;
    [apply keeps_trigger; intros env' w H; simpl;
     apply (stable_logs Inv stable); exact H | intros _].
  apply keeps_bind; [apply keeps_addLog | intros _].
  apply keeps_bind; [apply keeps_addLog | intros _].
  apply keeps_try_finally;
    [|apply keeps_trigger; intros env' w H; simpl;
      apply (stable_isGenerating Inv stable); exact H].
  apply keeps_try_catch; [|intros e; apply keeps_addLog].
  apply keeps_bind; [apply keeps_addLog | intros _].
  apply keeps_bind; [apply keeps_generateISOBlueprint | intros files].
  repeat (apply keeps_bind;
          [first [apply keeps_addLog | apply keeps_trigger, preserves_SetTimeout] | intros _]).
  apply keeps_bind;
    [apply keeps_trigger; intros env' w H; simpl;
     apply (stable_generatedFiles Inv stable); exact H | intros _].
  apply keeps_bind; [apply keeps_addLog | intros _].
  apply keeps_trigger. intros env' w H. simpl.
  apply (stable_activeStep Inv stable). exact H.
Qed.

Lemma advance_subtree {A : Type} (p : proc A) (w : World) :
  keeps Inv p ->
  match fst (advance env p w) with
  | Waiting p' => keeps Inv p'
  | Done _ => True
  end.
Proof.
  intros Hp. revert w. induction Hp as [a|e|X e k He Hk IH]; intros w; simpl.
  - exact I.
  - exact I.
  - destruct (suspends e).
    + simpl. constructor; assumption.
    + destruct (perform env e w) as [x w']. apply IH.
Qed.

Lemma advance_state {A : Type} (p : proc A) (w : World) :
  keeps Inv p -> Inv (state w) -> Inv (state (snd (advance env p w))).
Proof.
  intros Hp. revert w. induction Hp as [a|e|X e k He Hk IH]; intros w Hw; simpl.
  - exact Hw.
  - exact Hw.
  - destruct (suspends e).
    + exact Hw.
    + specialize (He env w Hw). destruct (perform env e w) as [x w'].
      apply IH. exact He.
Qed.

Lemma spawn_state (p : proc unit) (s : System) :
  keeps Inv p -> Inv (state (world s)) -> Inv (state (world (spawn env p s))).
Proof.
  intros Hp Hs. unfold spawn.
  pose proof (advance_state p (world s) Hp Hs) as H.
  destruct (advance env p (world s)) as [[o|p'] w']; exact H.
Qed.

Lemma spawn_pending (p : proc unit) (s : System) :
  keeps Inv p ->
  Forall (keeps Inv) (pending s) ->
  Forall (keeps Inv) (pending (spawn env p s)).
Proof.
  intros Hp Hs. unfold spawn.
  pose proof (advance_subtree p (world s) Hp) as H.
  destruct (advance env p (world s)) as [[o|p'] w']; simpl in *.
  - exact Hs.
  - apply Forall_app. split; [exact Hs | constructor; [exact H | constructor]].
Qed.

Lemma take_first_keeps (pick : proc unit -> option (proc unit))
  (l rest : list (proc unit)) (q : proc unit) :
  (forall (X : Type) (e : eff X) (k : X -> proc unit) (q' : proc unit),
      pick (Vis e k) = Some q' -> exists x : X, q' = k x) ->
  (forall a, pick (Ret a) = None) ->
  (forall e, pick (Throw e) = None) ->
  Forall (keeps Inv) l ->
  take_first pick l = Some (q, rest) ->
  keeps Inv q /\ Forall (keeps Inv) rest.
Proof.
  intros Hpick Hret Hthrow Hl. revert q rest.
  induction Hl as [|p l Hp Hl IH]; intros q rest H; simpl in H; [discriminate|].
  destruct (pick p) as [q'|] eqn:Hq.
  - injection H as <- <-. split; [|exact Hl].
    destruct Hp as [a|e|X e k He Hk].
    + rewrite Hret in Hq. discriminate.
    + rewrite Hthrow in Hq. discriminate.
    + destruct (Hpick X e k q' Hq) as [x ->]. apply Hk.
  - destruct (take_first pick l) as [[q'' rest']|]; [|discriminate].
    injection H as <- <-. destruct (IH q'' rest' eq_refl) as [Hq'' Hrest].
    split; [exact Hq'' | constructor; assumption].
Qed.

Lemma resume_keeps (pick : proc unit -> option (proc unit)) (s : System) :
  (forall (X : Type) (e : eff X) (k : X -> proc unit) (q' : proc unit),
      pick (Vis e k) = Some q' -> exists x : X, q' = k x) ->
  (forall a, pick (Ret a) = None) ->
  (forall e, pick (Throw e) = None) ->
  Forall (keeps Inv) (pending s) ->
  Forall (keeps Inv) (pending (resume env pick s))
  /\ (Inv (state (world s)) -> Inv (state (world (resume env pick s)))).
Proof.
  intros Hpick Hret Hthrow Hs. unfold resume.
  destruct (take_first pick (pending s)) as [[q rest]|] eqn:Htake.
  - destruct (take_first_keeps pick _ _ _ Hpick Hret Hthrow Hs Htake) as [Hq Hrest].
    split.
    + apply spawn_pending; assumption.
    + intros Hw. apply spawn_state; assumption.
  - split; [exact Hs | auto].
Qed.

End Keeps.

Lemma spawn_tame_unfold (env : Env) (throws : bool) (p : proc unit) (s : System) :
  tame throws false p ->
  exists (o : outcome unit) (w' : World),
    advance env p (world s) = (Done o, w')
    /\ spawn env p s = {| world := w'; pending := pending s |}.
Proof.
  intros Hp. destruct (advance_tame env throws p (world s) Hp) as (o & w' & Hadv & _).
  exists o, w'. split; [exact Hadv|]. unfold spawn. rewrite Hadv. reflexivity.
Qed.

Lemma spawn_tame_pending (env : Env) (throws : bool) (p : proc unit) (s : System) :
  tame throws false p -> pending (spawn env p s) = pending s.
Proof.
  intros Hp. destruct (spawn_tame_unfold env throws p s Hp) as (o & w' & _ & ->).
  reflexivity.
Qed.

Lemma spawn_tame_Forall (env : Env) (P : proc unit -> Prop) (p : proc unit)
  (s : System) :
  tame false false p ->
  Forall P (pending s) -> Forall P (pending (spawn env p s)).
Proof. intros Hp Hs. rewrite (spawn_tame_pending env false p s Hp). exact Hs. Qed.

Lemma on_reply_ends (r : exn + Response) :
  (forall a, on_reply r (Ret a) = None) /\ (forall e, on_reply r (Throw e) = None).
Proof. split; reflexivity. Qed.

Lemma step_pending_keeps (env : Env) (Inv : AppState -> Prop) (s : System) (ev : event) :
  generation_stable Inv ->
  Forall (keeps Inv) (pending s) ->
  Forall (keeps Inv) (pending (step env s ev)).
Proof.
  intros Hstable Hs. destruct ev; cbn [step];
    try (apply spawn_tame_Forall; [|exact Hs];
         first [apply tame_setConfig_from | apply tame_addPackage
               | apply tame_removePackage
               | apply tame_trigger; [reflexivity | discriminate]]).
  - destruct (nth_error TEMPLATES i) as [t|]; [|exact Hs].
    apply spawn_tame_Forall; [apply tame_loadTemplate | exact Hs].
  - destruct (isGenerating (state (world s))); [exact Hs|].
    apply spawn_pending; [apply keeps_handleGenerate; exact Hstable | exact Hs].
  - destruct (length_positive _); [|exact Hs].
    apply spawn_tame_Forall; [apply tame_downloadAll | exact Hs].
  - apply resume_keeps; try reflexivity; [|exact Hs].
    intros X e k q. apply on_reply_resumes.
  - apply resume_keeps; try reflexivity; [|exact Hs].
    intros X e k q. apply on_timer_resumes.
Qed.

Lemma steps_pending_keeps (env : Env) (Inv : AppState -> Prop) (s : System)
  (evs : list event) :
  generation_stable Inv ->
  Forall (keeps Inv) (pending s) ->
  Forall (keeps Inv) (pending (steps env s evs)).
Proof.
  intros Hstable. revert s. induction evs as [|ev evs IH]; intros s Hs; simpl.
  - exact Hs.
  - apply IH. apply step_pending_keeps; assumption.
Qed.

Lemma keeps_downloadAll (Inv : AppState -> Prop) (rendered : AppState) :
  generation_stable Inv -> keeps Inv (downloadAll rendered).
Proof.
  intros Hstable. unfold downloadAll. apply keeps_bind.
  - apply keeps_trigger. intros env w H. exact H.
  - intros _. apply keeps_addLog. exact Hstable.
Qed.

Lemma keeps_loadTemplate (Inv : AppState -> Prop) (t : ISOConfig) :
  generation_stable Inv ->
  (forall st, Inv st -> Inv (set_config (fun _ => t) st)) ->
  keeps Inv (loadTemplate t).
Proof.
  intros Hstable Ht. unfold loadTemplate.
  apply keeps_bind; [apply keeps_trigger; intros env w H; simpl; apply Ht, H | intros _].
  apply keeps_bind;
    [apply keeps_trigger; intros env w H; simpl;
     apply (stable_generatedFiles Inv Hstable), H | intros _].
  apply keeps_bind;
    [apply keeps_trigger; intros env w H; simpl;
     apply (stable_logs Inv Hstable), H | intros _].
  apply keeps_addLog. exact Hstable.
Qed.

Lemma keeps_setConfig_from (Inv : AppState -> Prop) (c : ISOConfig) :
  (forall st, Inv st -> Inv (set_config (fun _ => c) st)) ->
  keeps Inv (setConfig_from c).
Proof. intros Hc. apply keeps_trigger. intros env w H. simpl. apply Hc, H. Qed.

(** Every event keeps a property that the form cannot break and that a
    generation cannot break. *)
Lemma step_state_blind (env : Env) (Inv : AppState -> Prop) (s : System) (ev : event) :
  generation_stable Inv -> form_blind Inv ->
  Forall (keeps Inv) (pending s) ->
  Inv (state (world s)) -> Inv (state (world (step env s ev))).
Proof.
  intros Hstable Hblind Hp Hs. destruct ev; cbn [step];
    try (apply spawn_state; [|exact Hs];
         first [ apply keeps_setConfig_from; intros st; apply (blind_config Inv Hblind)
               | apply keeps_trigger; intros env' w H; simpl;
                 first [apply (blind_newPackage Inv Hblind) | apply (blind_config Inv Hblind)];
                 exact H ]).
  - destruct (nth_error TEMPLATES i) as [t|]; [|exact Hs].
    apply spawn_state; [|exact Hs]. apply keeps_loadTemplate; [exact Hstable|].
    intros st. apply (blind_config Inv Hblind).
  - apply spawn_state; [|exact Hs]. unfold addPackage.
    destruct (_ && _); [|constructor].
    apply keeps_bind; [|intros _]; apply keeps_trigger; intros env' w H; simpl;
      [apply (blind_config Inv Hblind) | apply (blind_newPackage Inv Hblind)]; exact H.
  - destruct (isGenerating (state (world s))); [exact Hs|].
    apply spawn_state; [apply keeps_handleGenerate; exact Hstable | exact Hs].
  - destruct (length_positive _); [|exact Hs].
    apply spawn_state; [apply keeps_downloadAll; exact Hstable | exact Hs].
  - apply resume_keeps; try reflexivity; try assumption.
    intros X e k q. apply on_reply_resumes.
  - apply resume_keeps; try reflexivity; try assumption.
    intros X e k q. apply on_timer_resumes.
Qed.

Lemma steps_state_blind (env : Env) (Inv : AppState -> Prop) (s : System)
  (evs : list event) :
  generation_stable Inv -> form_blind Inv ->
  Forall (keeps Inv) (pending s) ->
  Inv (state (world s)) -> Inv (state (world (steps env s evs))).
Proof.
  intros Hstable Hblind. revert s.
  induction evs as [|ev evs IH]; intros s Hp Hs; simpl; [exact Hs|].
  apply IH.
  - apply step_pending_keeps; assumption.
  - apply step_state_blind; assumption.
Qed.

Lemma steps_app (env : Env) (s : System) (evs evs' : list event) :
  steps env s (evs ++ evs') = steps env (steps env s evs) evs'.
Proof. unfold steps. apply fold_left_app. Qed.

(** X1. Over any sequence of events from the first render, the step
    indicator [activeStep] is 1 or 2 and never decreases: once a
    generation has set it to 2, no later event (template load, new
    generation, failure) brings it back to 1. *)
Theorem step_indicator_never_returns (env : Env) (evs evs' : list event) :
  let before := activeStep (state (world (steps env boot evs))) in
  let after := activeStep (state (world (steps env boot (evs ++ evs')))) in
  1 <= before /\ before <= after /\ after <= 2.
Proof.
  intros before after.
  assert (Hrange : forall l,
             activeStep (state (world (steps env boot l))) = 1
             \/ activeStep (state (world (steps env boot l))) = 2).
  { intros l.
    apply (steps_state_blind env (fun st => activeStep st = 1 \/ activeStep st = 2)).
    - constructor; intros; simpl; auto.
    - constructor; intros; simpl; auto.
    - constructor.
    - left. reflexivity. }
  assert (Hstays : before = 2 -> after = 2).
  { intros H2. unfold after. rewrite steps_app.
    apply (steps_state_blind env (fun st => activeStep st = 2)).
    - constructor; intros; simpl; auto.
    - constructor; intros; simpl; auto.
    - apply steps_pending_keeps; [constructor; intros; simpl; auto | constructor].
    - exact H2. }
  subst before after.
  destruct (Hrange evs) as [H1|H2].
  - destruct (Hrange (evs ++ evs')) as [H|H]; lia.
  - specialize (Hstays H2). lia.
Qed.

Ltac distinct_strings :=
  let H := fresh "Hin" in
  repeat constructor; simpl; intros H;
  repeat (destruct H as [H|H]; [vm_compute in H; discriminate H|]);
  exact H.

Lemma TEMPLATES_sound (i : nat) (t : ISOConfig) :
  nth_error TEMPLATES i = Some t -> sound_packages (packages t).
Proof.
  destruct i as [|[|[|i]]]; simpl; intros H; try (destruct i; discriminate H);
    injection H as <-; split; simpl packages;
    first [distinct_strings | repeat constructor].
Qed.

Lemma sound_stable :
  generation_stable (fun st => sound_packages (packages (config st))).
Proof. constructor; intros; exact H. Qed.

Lemma sound_snoc (ps : list jsstring) (x : jsstring) :
  sound_packages ps -> truthy x = true -> includes ps x = false ->
  sound_packages (ps ++ [x]).
Proof.
  intros [Hnd Hne] Hx Hin. split.
  - apply NoDup_snoc; [exact Hnd | apply includes_not_In; exact Hin].
  - apply Forall_app. split; [exact Hne | constructor; [exact Hx | constructor]].
Qed.

Lemma sound_filter (ps : list jsstring) (f : jsstring -> bool) :
  sound_packages ps -> sound_packages (filter f ps).
Proof.
  intros [Hnd Hne]. split.
  - apply NoDup_filter. exact Hnd.
  - apply Forall_forall. intros x Hx. apply filter_In in Hx as [Hx _].
    rewrite Forall_forall in Hne. apply Hne, Hx.
Qed.

Lemma step_sound_packages (env : Env) (s : System) (ev : event) :
  Forall (keeps (fun st => sound_packages (packages (config st)))) (pending s) ->
  sound_packages (packages_of s) ->
  sound_packages (packages_of (step env s ev)).
Proof.
  unfold packages_of. intros Hp Hs. destruct ev; cbn [step];
    try (apply (spawn_state env (fun st => sound_packages (packages (config st))));
         [|exact Hs];
         first [ apply keeps_setConfig_from; intros st _; exact Hs
               | apply keeps_trigger; intros env' w H; exact H ]).
  - destruct (nth_error TEMPLATES i) as [t|] eqn:Ht; [|exact Hs].
    apply (spawn_state env (fun st => sound_packages (packages (config st))));
      [|exact Hs].
    apply keeps_loadTemplate; [exact sound_stable|].
    intros st _. exact (TEMPLATES_sound i t Ht).
  - unfold spawn, addPackage.
    destruct (truthy (newPackage (state (world s)))) eqn:Hne; simpl; [|exact Hs].
    destruct (includes (packages (config (state (world s)))) (newPackage (state (world s))))
      eqn:Hin; simpl; [exact Hs|].
    apply sound_snoc; assumption.
  - apply (spawn_state env (fun st => sound_packages (packages (config st))));
      [|exact Hs].
    apply keeps_trigger. intros env' w H. simpl. apply sound_filter. exact H.
  - destruct (isGenerating (state (world s))); [exact Hs|].
    apply (spawn_state env (fun st => sound_packages (packages (config st))));
      [|exact Hs].
    apply keeps_handleGenerate. exact sound_stable.
  - destruct (length_positive _); [|exact Hs].
    apply (spawn_state env (fun st => sound_packages (packages (config st))));
      [|exact Hs].
    apply keeps_downloadAll. exact sound_stable.
  - apply (resume_keeps env (fun st => sound_packages (packages (config st))));
      try reflexivity; try assumption.
    intros X e k q. apply on_reply_resumes.
  - apply (resume_keeps env (fun st => sound_packages (packages (config st))));
      try reflexivity; try assumption.
    intros X e k q. apply on_timer_resumes.
Qed.

(** X2. In every state reachable from the first render, the package
    list of the configuration has no duplicate and does not contain the
    empty name, whatever the user types, loads, removes or generates. *)
Theorem reachable_packages_sound (env : Env) (evs : list event) :
  let ps := packages_of (steps env boot evs) in
  NoDup ps /\ ~ In [] ps.
Proof.
  intros ps.
  assert (H : forall s,
             Forall (keeps (fun st => sound_packages (packages (config st)))) (pending s) ->
             sound_packages (packages_of s) ->
             sound_packages (packages_of (steps env s evs))).
  { induction evs as [|ev evs IH]; intros s Hp Hs; simpl; [exact Hs|].
    apply IH.
    - apply step_pending_keeps; [exact sound_stable | exact Hp].
    - apply step_sound_packages; assumption. }
  assert (Hboot : sound_packages (packages_of boot))
    by (split; [distinct_strings | repeat constructor]).
  destruct (H boot (Forall_nil _) Hboot) as [Hnd Hne].
  split; [exact Hnd|]. intros Hin. rewrite Forall_forall in Hne.
  specialize (Hne [] Hin). discriminate Hne.
Qed.

(** X3. A generation never writes the form: in any reachable state,
    the click on the generate button, the settling of the service call
    and the firing of a timer leave the configuration and the package
    input as they were. *)
Theorem generation_leaves_form (env : Env) (evs : list event) (r : exn + Response) :
  let s := steps env boot evs in
  let form (x : System) := (config (state (world x)), newPackage (state (world x))) in
  form (step env s ClickGenerate) = form s
  /\ form (step env s (ServiceSettles r)) = form s
  /\ form (step env s TimerFires) = form s.
Proof.
  intros s form.
  set (Inv := fun st : AppState => (config st, newPackage st) = form s).
  assert (Hstable : generation_stable Inv) by (constructor; intros; exact H).
  assert (Hp : Forall (keeps Inv) (pending s))
    by (apply steps_pending_keeps; [exact Hstable | constructor]).
  assert (Hs : Inv (state (world s))) by reflexivity.
  repeat split.
  - cbn [step]. destruct (isGenerating (state (world s))); [reflexivity|].
    apply (spawn_state env Inv); [apply keeps_handleGenerate; exact Hstable | exact Hs].
  - cbn [step].
    apply (resume_keeps env Inv); try reflexivity; try assumption.
    intros X e k q. apply on_reply_resumes.
  - cbn [step].
    apply (resume_keeps env Inv); try reflexivity; try assumption.
    intros X e k q. apply on_timer_resumes.
Qed.

Lemma packages_remove (env : Env) (s : System) (pkg : jsstring) :
  packages_of (step env s (ClickRemovePackage pkg))
  = filter (fun p => negb (str_eqb p pkg)) (packages_of s).
Proof. reflexivity. Qed.

Lemma kept_iff (p pkg : jsstring) : negb (str_eqb p pkg) = true <-> p <> pkg.
Proof.
  rewrite negb_true_iff. split.
  - intros H Heq. apply str_eqb_eq in Heq. congruence.
  - intros H. destruct (str_eqb p pkg) eqn:E; [|reflexivity].
    apply str_eqb_eq in E. contradiction.
Qed.

Lemma filter_absent (pkg : jsstring) (ps : list jsstring) :
  ~ In pkg ps -> filter (fun p => negb (str_eqb p pkg)) ps = ps.
Proof.
  induction ps as [|p ps IH]; intros H; [reflexivity|]. simpl.
  assert (Hp : negb (str_eqb p pkg) = true)
    by (apply kept_iff; intros ->; apply H; left; reflexivity).
  rewrite Hp, IH; [reflexivity|]. intros Hin. apply H. right. exact Hin.
Qed.

(** X4. [removePackage(pkg)] removes exactly [pkg]: the name is absent
    afterwards, every other name is in the list after iff it was before,
    a list without duplicates stays so, and removing an absent name
    changes nothing. *)
Theorem removePackage_removes (env : Env) (s : System) (pkg : jsstring) :
  let before := packages_of s in
  let after := packages_of (step env s (ClickRemovePackage pkg)) in
  ~ In pkg after
  /\ (forall q : jsstring, q <> pkg -> (In q after <-> In q before))
  /\ (NoDup before -> NoDup after)
  /\ (~ In pkg before -> after = before).
Proof.
  intros before after. unfold after. rewrite packages_remove. fold before.
  split; [|split; [|split]].
  - intros H. apply filter_In in H as [_ H]. apply kept_iff in H. congruence.
  - intros q Hq. rewrite filter_In. split; [intros [H _]; exact H|].
    intros H. split; [exact H | apply kept_iff; exact Hq].
  - apply NoDup_filter.
  - apply filter_absent.
Qed.

(** X5. Adding a new, non-empty package name appends it at the end of
    the list and clears the input; removing it again gives back the list
    from before the add. *)
Theorem add_then_remove (env : Env) (s : System) (pkg : jsstring) :
  pkg <> [] ->
  ~ In pkg (packages_of s) ->
  let added := add_package env s pkg in
  packages_of added = packages_of s ++ [pkg]
  /\ newPackage (state (world added)) = []
  /\ packages_of (step env added (ClickRemovePackage pkg)) = packages_of s.
Proof.
  intros Hne Hnew added.
  assert (Hadded : packages_of added = packages_of s ++ [pkg]).
  { unfold added. rewrite packages_add_package.
    apply includes_not_In in Hnew. rewrite Hnew.
    destruct pkg; [contradiction | reflexivity]. }
  split; [exact Hadded|]. split.
  - unfold added, add_package, step, spawn, addPackage. simpl.
    apply includes_not_In in Hnew. unfold packages_of in Hnew. rewrite Hnew.
    destruct pkg; [contradiction | reflexivity].
  - rewrite packages_remove, Hadded, filter_app, filter_absent by exact Hnew.
    simpl. rewrite str_eqb_refl. simpl. apply app_nil_r.
Qed.

(** X6. A rejected add (empty name, or a name already in the list)
    changes nothing but the input field, which keeps the typed text:
    [setNewPackage('')] sits inside the [if]. *)
Theorem rejected_add_keeps_input (env : Env) (s : System) (pkg : jsstring) :
  pkg = [] \/ In pkg (packages_of s) ->
  state (world (add_package env s pkg)) = set_newPackage pkg (state (world s)).
Proof.
  intros Hrej. unfold add_package, step, spawn, addPackage. simpl.
  destruct Hrej as [-> | Hin]; [reflexivity|].
  apply includes_In in Hin. unfold packages_of in Hin. rewrite Hin, andb_false_r.
  reflexivity.
Qed.



Section Advance.

Variable env : Env.







End Advance.












(** X9. The request sent to the service is the same for two
    configurations that differ only in [version] and [password]: neither
    field reaches the prompt. *)
Theorem request_ignores_version (c1 c2 : ISOConfig) :
  same_for_service c1 c2 -> blueprint_request c1 = blueprint_request c2.
Proof.
  intros (Hos & Harch & Hhost & Huser & Hpk & Hcs & Hci).
  unfold blueprint_request, prompt.
  rewrite Hos, Harch, Hhost, Huser, Hpk, Hcs, Hci. reflexivity.
Qed.

(** X10. [getAIAssistance] rejects exactly when the service call
    rejects, and with that reason; when the call is fulfilled its answer
    is never the empty string, and it is the text of the response
    whenever that text is present and non-empty.  Of the configuration
    only [os] matters. *)
Theorem assistance_answer (env : Env)
  (ask : GoogleGenAI -> AssistanceRequest -> exn + Response)
  (query : jsstring) (c : ISOConfig) :
  match getAIAssistance env ask query c with
  | Fulfilled answer =>
    answer <> []
    /\ exists response,
        ask (client env) (assistance_request query c) = inr response
        /\ (forall t, text response = Some t -> t <> [] -> answer = t)
  | Rejected e => ask (client env) (assistance_request query c) = inl e
  end
  /\ (forall c' : ISOConfig,
        os c' = os c ->
        getAIAssistance env ask query c' = getAIAssistance env ask query c).
Proof.
  split.
  - unfold getAIAssistance.
    destruct (ask (client env) (assistance_request query c)) as [e|response];
      [reflexivity|].
    split.
    + destruct (text response) as [[|ch r]|]; discriminate.
    + exists response. split; [reflexivity|].
      intros t -> Ht. destruct t; [contradiction | reflexivity].
  - intros c' Hos. unfold getAIAssistance, assistance_request. rewrite Hos. reflexivity.
Qed.

(** X11. The log after an uninterrupted [handleGenerate] does not
    depend on the log before it: it is the three opening lines followed,
    when the call rejects, by one error line with the message, and
    otherwise (parseable reply or not) by three progress lines and the
    success line, stamped by consecutive clock readings. *)
Theorem generation_log (env : Env) (rendered : AppState) (w : World) :
  let n := clock_reads w in
  logs (state (snd (run env (handleGenerate rendered) w)))
  = [ log_line env n (str "Initializing ISOForge AI engine...") info;
      log_line env (1 + n)
        (str "Target Distribution: " ++ OS_value (os (config rendered)) ++ str " "
           ++ version (config rendered)) info;
      log_line env (2 + n)
        (str "Consulting AI Architect for optimal partitioning and package dependencies...")
        info ]
    ++ match settled env (config rendered) with
       | inl e =>
         [ log_line env (3 + n) (str "Architectural failure: " ++ exn_message e) error ]
       | inr _ =>
         [ log_line env (3 + n) (str "Analyzing package manifest...") info;
           log_line env (4 + n) (str "Drafting autoinstall/preseed configurations...") info;
           log_line env (5 + n)
             (str "Synthesizing bootloader menu and kernel parameters...") info;
           log_line env (6 + n) (str "ISO Blueprint successfully synthesized!") success ]
       end.
Proof.
  intros n. rewrite run_handleGenerate. cbn [snd].
  destruct (settled env (config rendered)) as [e|response]; [reflexivity|].
  destruct (JSON.parse (text_or_default (text response))); reflexivity.
Qed.

(** X12. Export and generation compose: when the service replies with
    the text that [downloadAll] writes for a list of artifacts,
    [generateISOBlueprint] is fulfilled with that list, and the console
    stays silent. *)
Theorem exported_bundle_regenerates (env : Env) (config : ISOConfig) (w : World)
  (response : Response) (fs : list GeneratedFile) :
  settled env config = inr response ->
  text response = Some (toUSVString (JSON.stringify (files_json fs) 2)) ->
  run env (generateISOBlueprint config) w = (Fulfilled (files_json fs), called w).
Proof.
  intros Hcall Htext.
  apply (returns_parsed_value env config w response _ _ Hcall Htext).
  rewrite usv_stringify_files. apply parse_stringify_files.
Qed.



Lemma TEMPLATES_password (i : nat) (t : ISOConfig) :
  nth_error TEMPLATES i = Some t -> password t = None.
Proof.
  destruct i as [|[|[|i]]]; simpl; intros H; try (destruct i; discriminate H);
    injection H as <-; reflexivity.
Qed.

Lemma password_stable : generation_stable (fun st => password (config st) = None).
Proof. constructor; intros; exact H. Qed.

Lemma step_password (env : Env) (s : System) (ev : event) :
  Forall (keeps (fun st => password (config st) = None)) (pending s) ->
  password (config (state (world s))) = None ->
  password (config (state (world (step env s ev)))) = None.
Proof.
  intros Hp Hs. destruct ev; cbn [step];
    try (apply (spawn_state env (fun st => password (config st) = None));
         [|exact Hs];
         first [ apply keeps_setConfig_from; intros st _; exact Hs
               | apply keeps_trigger; intros env' w H; exact H ]).
  - destruct (nth_error TEMPLATES i) as [t|] eqn:Ht; [|exact Hs].
    apply (spawn_state env (fun st => password (config st) = None)); [|exact Hs].
    apply keeps_loadTemplate; [exact password_stable|].
    intros st _. exact (TEMPLATES_password i t Ht).
  - apply (spawn_state env (fun st => password (config st) = None)); [|exact Hs].
    unfold addPackage. destruct (_ && _); [|constructor].
    apply keeps_bind; [|intros _]; apply keeps_trigger; intros env' w H; exact H.
  - destruct (isGenerating (state (world s))); [exact Hs|].
    apply (spawn_state env (fun st => password (config st) = None)); [|exact Hs].
    apply keeps_handleGenerate. exact password_stable.
  - destruct (length_positive _); [|exact Hs].
    apply (spawn_state env (fun st => password (config st) = None)); [|exact Hs].
    apply keeps_downloadAll. exact password_stable.
  - apply (resume_keeps env (fun st => password (config st) = None));
      try reflexivity; try assumption.
    intros X e k q. apply on_reply_resumes.
  - apply (resume_keeps env (fun st => password (config st) = None));
      try reflexivity; try assumption.
    intros X e k q. apply on_timer_resumes.
Qed.

(** X14. The optional [password] of the configuration is never set: in
    every state reachable from the first render it is absent. *)
Theorem password_never_set (env : Env) (evs : list event) :
  password (config (state (world (steps env boot evs)))) = None.
Proof.
  assert (H : forall s,
             Forall (keeps (fun st => password (config st) = None)) (pending s) ->
             password (config (state (world s))) = None ->
             password (config (state (world (steps env s evs)))) = None).
  { induction evs as [|ev evs IH]; intros s Hp Hs; simpl; [exact Hs|].
    apply IH.
    - apply step_pending_keeps; [exact password_stable | exact Hp].
    - apply step_password; assumption. }
  apply H; [constructor | reflexivity].
Qed.

Lemma tabs_from_nth (files : list GeneratedFile) (activeIdx idx i : nat) :
  nth_error (tabs_from idx files activeIdx) i
  = option_map
      (fun file => {| caption := name file;
                      highlighted := Nat.eqb activeIdx (idx + i);
                      selects := idx + i |})
      (nth_error files i).
Proof.
  revert idx i. induction files as [|file rest IH]; intros idx i.
  - destruct i; reflexivity.
  - destruct i as [|i]; simpl.
    + rewrite Nat.add_0_r. reflexivity.
    + rewrite IH. replace (S idx + i) with (idx + S i) by lia. reflexivity.
Qed.

Lemma tabs_from_length (files : list GeneratedFile) (activeIdx idx : nat) :
  List.length (tabs_from idx files activeIdx) = List.length files.
Proof.
  revert idx. induction files as [|file rest IH]; intros idx; simpl;
    [reflexivity | rewrite IH; reflexivity].
Qed.

Lemma FileTabs_some (files : list GeneratedFile) (activeIdx : nat) :
  files <> [] ->
  FileTabs files activeIdx
  = Some (tabs_from 0 files activeIdx, option_map content (nth_error files activeIdx)).
Proof. destruct files; [contradiction | reflexivity]. Qed.

(** X15. In [FileTabs], every rendered tab stands for the file at its
    own position: its caption is that file's name, and after a click on it
    the component shows that file's content, keeps the same captions, and
    highlights that tab and no other. *)
Theorem tab_click_shows_file (files : list GeneratedFile) (activeIdx i : nat)
  (tabs : list Tab) (shown : option jsstring) (tab : Tab) :
  FileTabs files activeIdx = Some (tabs, shown) ->
  nth_error tabs i = Some tab ->
  exists file tabs',
    nth_error files i = Some file
    /\ caption tab = name file
    /\ FileTabs files (selects tab) = Some (tabs', Some (content file))
    /\ map caption tabs' = map caption tabs
    /\ forall j t, nth_error tabs' j = Some t -> (highlighted t = true <-> j = i).
Proof.
  intros Hview Htab.
  assert (Hne : files <> []) by (intros ->; discriminate Hview).
  rewrite (FileTabs_some _ _ Hne) in Hview. injection Hview as <- <-.
  rewrite tabs_from_nth in Htab.
  destruct (nth_error files i) as [file|] eqn:Hfile; [|discriminate Htab].
  injection Htab as <-. cbn [caption selects Nat.add].
  exists file, (tabs_from 0 files i). split; [reflexivity|]. split; [reflexivity|].
  split; [rewrite (FileTabs_some _ _ Hne), Hfile; reflexivity|].
  split.
  - apply nth_error_ext. intros j. rewrite !nth_error_map, !tabs_from_nth.
    destruct (nth_error files j); reflexivity.
  - intros j t Ht. rewrite tabs_from_nth in Ht.
    destruct (nth_error files j); [|discriminate Ht].
    injection Ht as <-. cbn [highlighted Nat.add]. rewrite Nat.eqb_eq.
    split; intros ->; reflexivity.
Qed.

(** X16. When [activeIdx] of [FileTabs] is past the end of a non-empty
    list (the index is kept when a shorter list arrives), the tabs are
    all rendered, none is highlighted, and no content is shown. *)
Theorem stale_tab_shows_nothing (files : list GeneratedFile) (activeIdx : nat) :
  files <> [] -> List.length files <= activeIdx ->
  exists tabs,
    FileTabs files activeIdx = Some (tabs, None)
    /\ map caption tabs = map name files
    /\ forallb (fun t => negb (highlighted t)) tabs = true.
Proof.
  intros Hne Hout. exists (tabs_from 0 files activeIdx).
  rewrite (FileTabs_some _ _ Hne).
  split; [|split].
  - apply nth_error_None in Hout. rewrite Hout. reflexivity.
  - apply nth_error_ext. intros j. rewrite !nth_error_map, tabs_from_nth.
    destruct (nth_error files j); reflexivity.
  - apply forallb_forall. intros t Ht. apply In_nth_error in Ht as [j Hj].
    assert (Hlt : j < List.length files).
    { rewrite <- (tabs_from_length files activeIdx 0). apply nth_error_Some.
      rewrite Hj. discriminate. }
    rewrite tabs_from_nth in Hj. destruct (nth_error files j); [|discriminate Hj].
    injection Hj as <-. cbn [highlighted Nat.add].
    apply negb_true_iff, Nat.eqb_neq. lia.
Qed.

(* ================================================================== *)
(** * The further properties at sample inputs *)
(* ================================================================== *)

Lemma add_then_remove_witness :
  let env := env_replying (inl (Error [])) in
  let added := add_package env boot (str "nginx") in
  packages_of added = packages_of boot ++ [str "nginx"]
  /\ newPackage (state (world added)) = []
  /\ packages_of (step env added (ClickRemovePackage (str "nginx"))) = packages_of boot.
Proof.
  intros env.
  apply (add_then_remove env boot (str "nginx")).
  - intros H. vm_compute in H. discriminate H.
  - intros H. vm_compute in H.
    repeat (destruct H as [H|H]; [discriminate H|]). exact H.
Defined.

Lemma rejected_add_keeps_input_witness :
  let env := env_replying (inl (Error [])) in
  In (str "curl") (packages_of boot)
  /\ state (world (add_package env boot (str "curl")))
     = set_newPackage (str "curl") (state (world boot)).
Proof.
  intros env.
  assert (Hin : In (str "curl") (packages_of boot)) by (vm_compute; auto).
  split; [exact Hin|].
  apply (rejected_add_keeps_input env boot (str "curl")). right. exact Hin.
Defined.



Lemma request_ignores_version_witness :
  let c := config initial_state in
  version (with_version c (str "22.04")) <> version c
  /\ blueprint_request (with_version c (str "22.04")) = blueprint_request c.
Proof.
  intros c. split.
  - intros H. vm_compute in H. discriminate H.
  - apply (request_ignores_version (with_version c (str "22.04")) c).
    repeat split.
Defined.

Lemma exported_bundle_regenerates_witness :
  let fs := [readme; build_script] in
  let env := replying_text (toUSVString (JSON.stringify (files_json fs) 2)) in
  let w := new_world initial_state in
  run env (generateISOBlueprint (config initial_state)) w
  = (Fulfilled (files_json fs), called w).
Proof.
  intros fs env w.
  exact (exported_bundle_regenerates env (config initial_state) w
           {| text := Some (toUSVString (JSON.stringify (files_json fs) 2)) |} fs
           eq_refl eq_refl).
Defined.

Lemma tab_click_shows_file_witness :
  let files := [readme; build_script] in
  let tab := {| caption := name build_script; highlighted := false; selects := 1 |} in
  exists file tabs',
    nth_error files 1 = Some file
    /\ caption tab = name file
    /\ FileTabs files (selects tab) = Some (tabs', Some (content file))
    /\ map caption tabs' = map caption (tabs_from 0 files 0)
    /\ forall j t, nth_error tabs' j = Some t -> (highlighted t = true <-> j = 1).
Proof.
  intros files tab.
  exact (tab_click_shows_file files 0 1 (tabs_from 0 files 0)
           (Some (content readme)) tab eq_refl eq_refl).
Defined.

Lemma stale_tab_shows_nothing_witness :
  let files := [readme; build_script] in
  exists tabs,
    FileTabs files 2 = Some (tabs, None)
    /\ map caption tabs = map name files
    /\ forallb (fun t => negb (highlighted t)) tabs = true.
Proof.
  intros files.
  apply (stale_tab_shows_nothing files 2); [discriminate | simpl; lia].
Defined.
